(** * camerabot: authorization, camera selection and replies

    A shallow embedding of [camerabot/camerabot.py]: the two decorators
    ([authorization_check], [camera_selection]), the command handlers of
    [CameraBot] and the reply dispatcher, as functions in a state-and-exception
    monad over the bot object, the camera objects and the sequence of calls
    the module makes on its collaborators (logger, chat library, cameras). *)

From Stdlib Require Import String Ascii List ZArith Lia Bool DecimalString.
Import ListNotations.
Local Open Scope string_scope.

(** ** Text *)

Module Text.

(** The line feed, the one character the regex dot does not match. *)
Definition LF : ascii := Ascii.ascii_of_nat 10.

Definition is_LF (c : ascii) : bool := Ascii.eqb c LF.

(** [sep.join(parts)]. *)
Fixpoint join (sep : string) (parts : list string) : string :=
  match parts with
  | [] => EmptyString
  | [p] => p
  | p :: rest => p ++ sep ++ join sep rest
  end.

(** [needle in hay] on strings. *)
Fixpoint contains (needle hay : string) : bool :=
  String.prefix needle hay ||
  match hay with
  | EmptyString => false
  | String _ hay' => contains needle hay'
  end.

(** No line feed in the string. *)
Fixpoint one_line (s : string) : bool :=
  match s with
  | EmptyString => true
  | String c s' => negb (is_LF c) && one_line s'
  end.

(** [str(n)] for an integer. *)
Definition str_Z (z : Z) : string := NilZero.string_of_int (Z.to_int z).

(** [str(n)] for a length. *)
Definition str_nat (n : nat) : string := NilZero.string_of_uint (Nat.to_uint n).

(** ['{0}'.format(x)] for a value that is a string or [None]. *)
Definition fmt_opt (x : option string) : string :=
  match x with
  | Some s => s
  | None => "None"
  end.

(** [os.path.basename]: what follows the last slash. *)
Fixpoint basename (path : string) : string :=
  match path with
  | EmptyString => EmptyString
  | String c rest =>
      if contains "/" rest then basename rest
      else if Ascii.eqb c "/" then rest else String c rest
  end.

End Text.

(** ** The regular expression of [camera_selection]

    [re.split(r'^.*(?=cam_)', text)[-1]].  The pattern is anchored at the start
    of the text (no MULTILINE flag), so [re.split] finds at most one match, at
    position 0.  The matcher below is the backtracking one of the [re] module,
    in continuation-passing style: each piece of the pattern receives the rest
    of the text and the continuation that matches the rest of the pattern. *)

Module Regex.

(** What a successful match leaves: the text after the match. *)
Definition cont := string -> option string.

(** [(?=lit)]: succeeds without consuming when the text goes on with [lit]. *)
Definition lookahead (lit : string) (k : cont) : cont :=
  fun s => if String.prefix lit s then k s else None.

(** [.*]: greedy; takes one more character that is not a line feed when the
    rest of the pattern then matches, and gives it back otherwise. *)
Fixpoint dot_star (k : cont) (s : string) : option string :=
  match s with
  | EmptyString => k s
  | String c s' =>
      if Text.is_LF c then k s
      else match dot_star k s' with
           | Some r => Some r
           | None => k s
           end
  end.

(** [^.*(?=cam_)] tried at position 0; the result is the text after the
    match. *)
Definition match_cam (text : string) : option string :=
  dot_star (lookahead "cam_" Some) text.

(** [re.split(r'^.*(?=cam_)', text)]: the part before the match (always empty,
    the match starts at 0) and the part after it; the text alone when nothing
    matches.  (Before Python 3.7 an empty match, at a text that starts with
    [cam_], does not split and the list is the text alone; its last element
    is the same.) *)
Definition split_cam (text : string) : list string :=
  match match_cam text with
  | Some rest => [EmptyString; rest]
  | None => [text]
  end.

End Regex.

(** [re.split(r'^.*(?=cam_)', update.message.text)[-1]] *)
Definition extract_cam_id (text : string) : string :=
  last (Regex.split_cam text) EmptyString.

(** The rule in the words of the specification: everything from the first
    occurrence of [cam_] to the end of the text. *)
Fixpoint from_first_cam (text : string) : option string :=
  if String.prefix "cam_" text then Some text
  else match text with
       | EmptyString => None
       | String _ text' => from_first_cam text'
       end.

(** ** Data *)

(** [update.message.chat] *)
Record Chat := {
  id : Z;
  username : option string;
  first_name : option string;
  last_name : option string
}.

(** [update.message] *)
Record Message := {
  chat : Chat;
  text : string
}.

Record Update := {
  message : Message
}.

(** The update that carries a text from a sender. *)
Definition inbound (sender : Chat) (body : string) : Update :=
  {| message := {| chat := sender; text := body |} |}.

(** A snapshot: a file object with a name and its bytes. *)
Record Photo := {
  name : string;
  content : string
}.

(** One value of the camera registry: the camera object (a reference into the
    store of cameras) and the names of the commands it supports. *)
Record CamData := {
  instance : nat;
  commands : list string
}.

(** The registry is a dict whose iteration order shows in [/list]: an
    association list in insertion order. *)
Definition Registry := list (string * CamData).

(** [registry[key]] *)
Fixpoint registry_get (registry : Registry) (key : string) : option CamData :=
  match registry with
  | [] => None
  | (k, v) :: rest => if String.eqb k key then Some v else registry_get rest key
  end.

(** Exceptions the module raises, catches or lets through. *)
Inductive exn :=
| UserAuthError
| HomeCamError (msg : string)
| KeyError (key : option string)
| AttributeError
| TelegramError (msg : string).

Inductive level := DEBUG | INFO | ERROR.

(** The calls the module makes on its collaborators, in the order made: the
    logger, the chat library (replies to the message of an update, sends to a
    chat), the cameras, and the thread that stops polling. *)
Inductive event :=
| Log (lvl : level) (msg : string)
| ReplyText (chat_id : Z) (body : string)
| ReplyHtml (chat_id : Z) (body : string)
| ReplyPhoto (chat_id : Z) (photo : Photo) (caption : option string)
| ReplyDocument (chat_id : Z) (document : Photo)
    (filename : option string) (caption : option string)
| SendMessage (chat_id : Z) (body : string)
| SendDocument (chat_id : Z) (document : Photo)
    (caption : option string) (filename : string) (timeout : Z)
| TakeSnapshot (cam : nat) (resize : bool)
| MotionDetectionSwitch (cam : nat) (enable : bool)
| ThreadStart.

(** ** Collaborators *)

(** The camera object ([HomeCam], imported by the callers of this module):
    its two attributes and its two methods; a method fails with the message of
    a [HomeCamError] and may change the camera. *)
Class HomeCam (C : Type) := {
  description : C -> string;
  snapshots_taken : C -> Z;
  take_snapshot : bool -> C -> (string + Photo * Z) * C;
  motion_detection_switch : bool -> C -> option string * C
}.

(** The chat library: given the calls made so far and the call being made, the
    message of the [TelegramError] it raises, if any. *)
Class Telegram := {
  transport : list event -> event -> option string
}.

(** The runtime: [datetime.fromtimestamp(ts)] rendered with a [strftime]
    format in the local time zone, and [str] of a [KeyError] (the [repr] of
    its key). *)
Class Runtime := {
  strftime : string -> Z -> string;
  repr_key : option string -> string
}.

(** ** State and the monad *)

(** The bot object, the cameras it refers to, and the calls made so far. *)
Record World (C : Type) := {
  _user_ids : list Z;
  _cam_instances : Registry;
  bot_first_name : string;
  cams : nat -> C;
  trace : list event
}.

Arguments _user_ids {C} _.
Arguments _cam_instances {C} _.
Arguments bot_first_name {C} _.
Arguments cams {C} _.
Arguments trace {C} _.

Inductive result (A : Type) :=
| Ret (a : A)
| Raise (e : exn).

Arguments Ret {A} a.
Arguments Raise {A} e.

Definition M (C A : Type) := World C -> result A * World C.

Definition ret {C A} (a : A) : M C A := fun w => (Ret a, w).

Definition raise {C A} (e : exn) : M C A := fun w => (Raise e, w).

Definition bind {C A B} (m : M C A) (k : A -> M C B) : M C B :=
  fun w =>
    match m w with
    | (Ret a, w') => k a w'
    | (Raise e, w') => (Raise e, w')
    end.

(** [try: body / except E: handler]: [handler e] is [None] for an exception
    the clause does not name. *)
Definition try_except {C A} (body : M C A) (handler : exn -> option (M C A))
  : M C A :=
  fun w =>
    match body w with
    | (Ret a, w') => (Ret a, w')
    | (Raise e, w') =>
        match handler e with
        | Some h => h w'
        | None => (Raise e, w')
        end
    end.

Definition gets {C A} (f : World C -> A) : M C A := fun w => (Ret (f w), w).

Declare Scope monad_scope.
Delimit Scope monad_scope with monad.
Notation "x <- m ;; k" := (bind m (fun x => k))
  (at level 61, m at next level, right associativity) : monad_scope.
Notation "m ;; k" := (bind m (fun _ => k))
  (at level 61, right associativity) : monad_scope.
Local Open Scope monad_scope.

(** [for x in xs: f(x)] *)
Fixpoint for_each {C A} (xs : list A) (f : A -> M C unit) : M C unit :=
  match xs with
  | [] => ret tt
  | x :: rest => f x ;; for_each rest f
  end.

Definition record_call {C} (e : event) (w : World C) : World C :=
  {| _user_ids := _user_ids w;
     _cam_instances := _cam_instances w;
     bot_first_name := bot_first_name w;
     cams := cams w;
     trace := trace w ++ [e] |}.

Definition set_cam {C} (ref : nat) (c : C) (w : World C) : World C :=
  {| _user_ids := _user_ids w;
     _cam_instances := _cam_instances w;
     bot_first_name := bot_first_name w;
     cams := fun r => if Nat.eqb r ref then c else cams w r;
     trace := trace w |}.

(** [self._log.<lvl>(msg)] *)
Definition log {C} (lvl : level) (msg : string) : M C unit :=
  fun w => (Ret tt, record_call (Log lvl msg) w).

(** ** Reading a sequence of calls *)

(** A call on the logger. *)
Definition is_log (e : event) : bool :=
  match e with
  | Log _ _ => true
  | _ => false
  end.

(** A call on the chat library: something goes to a user. *)
Definition is_reply (e : event) : bool :=
  match e with
  | ReplyText _ _ | ReplyHtml _ _ | ReplyPhoto _ _ _ | ReplyDocument _ _ _ _
  | SendMessage _ _ | SendDocument _ _ _ _ _ => true
  | _ => false
  end.

Definition is_photo_reply (e : event) : bool :=
  match e with
  | ReplyPhoto _ _ _ => true
  | _ => false
  end.

(** A call on a camera. *)
Definition is_camera_call (e : event) : bool :=
  match e with
  | TakeSnapshot _ _ | MotionDetectionSwitch _ _ => true
  | _ => false
  end.

(** The world after some more calls. *)
Definition emit {C} (es : list event) (w : World C) : World C :=
  {| _user_ids := _user_ids w;
     _cam_instances := _cam_instances w;
     bot_first_name := bot_first_name w;
     cams := cams w;
     trace := trace w ++ es |}.

(** What a call on the chat library returns after the calls [history]. *)
Definition delivery {tg : Telegram} (history : list event) (e : event)
  : result unit :=
  match transport history e with
  | None => Ret tt
  | Some msg => Raise (TelegramError msg)
  end.

(** ** The module *)

Section CameraBot.

Context {C : Type} {cam_ops : HomeCam C} {tg : Telegram} {rt : Runtime}.

(** A call on the chat library: recorded, then it returns or raises. *)
Definition telegram_call (e : event) : M C unit :=
  fun w =>
    match transport (trace w) e with
    | None => (Ret tt, record_call e w)
    | Some msg => (Raise (TelegramError msg), record_call e w)
    end.

(** [update.message.reply_text(body)] and its siblings. *)
Definition reply_text (update : Update) (body : string) : M C unit :=
  telegram_call (ReplyText (id (chat (message update))) body).

Definition reply_html (update : Update) (body : string) : M C unit :=
  telegram_call (ReplyHtml (id (chat (message update))) body).

Definition reply_photo (update : Update) (photo : Photo)
  (caption : option string) : M C unit :=
  telegram_call (ReplyPhoto (id (chat (message update))) photo caption).

Definition reply_document (update : Update) (document : Photo)
  (filename caption : option string) : M C unit :=
  telegram_call
    (ReplyDocument (id (chat (message update))) document filename caption).

(** [cam.take_snapshot(resize=...)] on the camera behind a reference. *)
Definition cam_take_snapshot (cam : nat) (resize : bool) : M C (Photo * Z) :=
  fun w =>
    let (r, c') := take_snapshot resize (cams w cam) in
    let w' := record_call (TakeSnapshot cam resize) (set_cam cam c' w) in
    match r with
    | inl msg => (Raise (HomeCamError msg), w')
    | inr shot => (Ret shot, w')
    end.

(** [cam.motion_detection_switch(enable=...)] *)
Definition cam_motion_detection_switch (cam : nat) (enable : bool)
  : M C unit :=
  fun w =>
    let (r, c') := motion_detection_switch enable (cams w cam) in
    let w' := record_call (MotionDetectionSwitch cam enable) (set_cam cam c' w) in
    match r with
    | Some msg => (Raise (HomeCamError msg), w')
    | None => (Ret tt, w')
    end.

(** [self._cam_instances[cam_id]] *)
Definition cam_instances_get (cam_id : option string) : M C CamData :=
  fun w =>
    match cam_id with
    | Some key =>
        match registry_get (_cam_instances w) key with
        | Some data => (Ret data, w)
        | None => (Raise (KeyError cam_id), w)
        end
    | None => (Raise (KeyError None), w)
    end.

(** [str(error)] *)
Definition str_exn (e : exn) : string :=
  match e with
  | UserAuthError => EmptyString
  | HomeCamError msg => msg
  | KeyError key => repr_key key
  | AttributeError => "'NoneType' object has no attribute 'message'"
  | TelegramError msg => msg
  end.

Definition _get_user_info (update : Update) : string :=
  let c := chat (message update) in
  "Request from user_id: " ++ Text.str_Z (id c)
  ++ ", username: " ++ Text.fmt_opt (username c)
  ++ ", first_name: " ++ Text.fmt_opt (first_name c)
  ++ ", last_name: " ++ Text.fmt_opt (last_name c).

Definition _print_access_error (update : Update) : M C unit :=
  reply_text update "Not authorized".

(** [x in self._user_ids] *)
Definition user_id_in (x : Z) (ids : list Z) : bool :=
  existsb (Z.eqb x) ids.

(** The decorator [authorization_check]: [func] is the wrapped handler. *)
Definition authorization_check (func : Update -> M C unit) (update : Update)
  : M C unit :=
  try_except
    (ids <- gets _user_ids ;;
     if negb (user_id_in (id (chat (message update))) ids)
     then raise UserAuthError
     else func update)
    (fun e =>
       match e with
       | UserAuthError =>
           Some (log ERROR "User authorization error" ;;
                 log ERROR (_get_user_info update) ;;
                 _print_access_error update)
       | _ => None
       end).

(** The decorator [camera_selection]: [func] receives the camera and its
    identifier after the update. *)
Definition camera_selection (func : Update -> nat -> string -> M C unit)
  (update : Update) : M C unit :=
  let cam_id := extract_cam_id (text (message update)) in
  data <- cam_instances_get (Some cam_id) ;;
  func update (instance data) cam_id.

Definition send_startup_message : M C unit :=
  log INFO "Sending welcome message" ;;
  ids <- gets _user_ids ;;
  for_each ids (fun user_id =>
    me <- gets bot_first_name ;;
    telegram_call
      (SendMessage user_id
         (me ++ " bot started, see /help for available commands"))).

(** [update] is [None] when the watchdog sends. *)
Definition send_cam_photo (photo : Photo) (update : option Update)
  (caption : option string) (reply : string)
  (full_snapshot_name : option string) (full_pic from_watchdog : bool)
  : M C unit :=
  if from_watchdog then
    ids <- gets _user_ids ;;
    for_each ids (fun uid =>
      let filename := Text.basename (name photo) in
      telegram_call (SendDocument uid photo caption filename 300))
  else
    match update with
    | None => raise AttributeError
    | Some update =>
        reply_text update reply ;;
        if full_pic
        then reply_document update photo full_snapshot_name caption
        else reply_photo update photo caption
    end.

(** ['\n'.join('/{0}'.format(x) for x in commands)] and the like. *)
Definition slash (cmd : string) : string := "/" ++ cmd.

Definition NL : string := String Text.LF EmptyString.

Definition cmd_help (update : Update) (append requested : bool)
  (cam_id : option string) : M C unit :=
  (if requested then
     log INFO "Help message has been requested" ;;
     log DEBUG (_get_user_info update) ;;
     reply_text update
       "Use /list command to list available cameras and commands"
   else if append then
     data <- cam_instances_get cam_id ;;
     reply_text update
       ("Available commands" ++ NL
        ++ Text.join NL (map slash (commands data))
        ++ " or /list available cameras")
   else ret tt) ;;
  log INFO "Help message has been sent".

Definition _print_helper (update : Update) (cam_id : string) : M C unit :=
  cmd_help update true false (Some cam_id).

Definition error_handler (update : Update) (error : exn) : M C unit :=
  log ERROR ("Got error: " ++ str_exn error).

(** [except HomeCamError as err: handler(str(err))] *)
Definition on_HomeCamError {A} (handler : string -> M C A) (e : exn)
  : option (M C A) :=
  match e with
  | HomeCamError err => Some (handler err)
  | _ => None
  end.

Definition snapshot_failed_text (err : string) : string :=
  err ++ NL ++ "Try later or /list other cameras".

Definition pic_caption (snapshot_timestamp counter : Z) : string :=
  "Pic taken on " ++ strftime "%a %b %-d %H:%M:%S %Y" snapshot_timestamp
  ++ " (pic #" ++ Text.str_Z counter ++ ")".

Definition full_pic_caption (snapshot_timestamp counter : Z) : string :=
  "Full pic taken on " ++ strftime "%a %b %-d %H:%M:%S %Y" snapshot_timestamp
  ++ " (pic #" ++ Text.str_Z counter ++ ")".

(** The body of [cmd_getpic], under its two decorators.  The [try] covers the
    snapshot alone; its [except] clause replies and returns. *)
Definition cmd_getpic_body (update : Update) (cam : nat) (cam_id : string)
  : M C unit :=
  c <- gets (fun w => cams w cam) ;;
  log INFO ("Resized cam snapshot from " ++ description c ++ " requested") ;;
  log DEBUG (_get_user_info update) ;;
  shot <- try_except
            (s <- cam_take_snapshot cam true ;; ret (Some s))
            (on_HomeCamError (fun err =>
               reply_text update (snapshot_failed_text err) ;; ret None)) ;;
  match shot with
  | None => ret tt
  | Some (photo, snapshot_timestamp) =>
      c <- gets (fun w => cams w cam) ;;
      let caption := pic_caption snapshot_timestamp (snapshots_taken c) in
      let reply := "Sending pic from " ++ description c ++ "..." in
      log INFO "Sending resized cam snapshot" ;;
      send_cam_photo photo (Some update) (Some caption) reply None
        false false ;;
      log INFO "Resized snapshot sent" ;;
      _print_helper update cam_id
  end.

Definition cmd_getfullpic_body (update : Update) (cam : nat) (cam_id : string)
  : M C unit :=
  log INFO "Full cam snapshot requested" ;;
  log DEBUG (_get_user_info update) ;;
  shot <- try_except
            (s <- cam_take_snapshot cam false ;; ret (Some s))
            (on_HomeCamError (fun err =>
               reply_text update (snapshot_failed_text err) ;; ret None)) ;;
  match shot with
  | None => ret tt
  | Some (photo, snapshot_timestamp) =>
      c <- gets (fun w => cams w cam) ;;
      let full_snapshot_name :=
        "Full_snapshot_" ++ strftime "%a_%b_%-d_%H.%M.%S_%Y" snapshot_timestamp
        ++ ".jpg" in
      let caption := full_pic_caption snapshot_timestamp (snapshots_taken c) in
      let reply := "Sending full pic from " ++ description c ++ "..." in
      log INFO "Sending full snapshot" ;;
      send_cam_photo photo (Some update) (Some caption) reply
        (Some full_snapshot_name) true false ;;
      log INFO ("Full cam snapshot " ++ full_snapshot_name ++ " sent") ;;
      _print_helper update cam_id
  end.

(** [Thread(target=self._stop_polling).start()] *)
Definition start_stop_polling_thread : M C unit :=
  fun w => (Ret tt, record_call ThreadStart w).

Definition cmd_stop_body (update : Update) : M C unit :=
  me <- gets bot_first_name ;;
  let msg := "Stopping " ++ me ++ " bot" in
  log INFO msg ;;
  log DEBUG (_get_user_info update) ;;
  reply_text update msg ;;
  start_stop_polling_thread.

(** One camera of the [/list] message. *)
Definition cam_block (cam_id desc : string) (cmds : list string) : string :=
  "<b>Camera:</b> " ++ cam_id ++ NL
  ++ "<b>Description:</b> " ++ desc ++ NL
  ++ "<b>Commands:</b> " ++ Text.join ", " (map slash cmds).

Definition cam_blocks (w : World C) : list string :=
  map (fun item : string * CamData =>
         let (cam_id, cam_data) := item in
         cam_block cam_id (description (cams w (instance cam_data)))
           (commands cam_data))
      (_cam_instances w).

Definition list_header (n : nat) : string :=
  "<b>You have " ++ Text.str_nat n ++ " cameras:</b>".

Definition cmd_list_cams_body (update : Update) : M C unit :=
  log INFO "Camera list has been requested" ;;
  n <- gets (fun w => length (_cam_instances w)) ;;
  blocks <- gets cam_blocks ;;
  let msg := list_header n :: blocks in
  reply_html update (Text.join (NL ++ NL) msg) ;;
  log INFO "Camera list has been sent".

(** The two motion-detection handlers differ in the flag and the words. *)
Definition motion_detection_body (enable : bool) (requested done : string)
  (update : Update) (cam : nat) (cam_id : string) : M C unit :=
  log INFO requested ;;
  log DEBUG (_get_user_info update) ;;
  try_except
    (cam_motion_detection_switch cam enable ;;
     reply_text update done ;;
     log INFO done ;;
     _print_helper update cam_id)
    (on_HomeCamError (fun err => reply_text update err)).

Definition cmd_motion_detection_off_body : Update -> nat -> string -> M C unit :=
  motion_detection_body false
    "Disabling camera's Motion Detection has been requested"
    "Motion Detection successfully disabled.".

Definition cmd_motion_detection_on_body : Update -> nat -> string -> M C unit :=
  motion_detection_body true
    "Enabling camera's Motion Detection has been requested"
    "Motion Detection successfully enabled.".

(** The handlers as the class defines them, decorators applied. *)
Definition cmd_getpic : Update -> M C unit :=
  authorization_check (camera_selection cmd_getpic_body).

Definition cmd_getfullpic : Update -> M C unit :=
  authorization_check (camera_selection cmd_getfullpic_body).

Definition cmd_stop : Update -> M C unit :=
  authorization_check cmd_stop_body.

Definition cmd_list_cams : Update -> M C unit :=
  authorization_check cmd_list_cams_body.

Definition cmd_motion_detection_off : Update -> M C unit :=
  authorization_check (camera_selection cmd_motion_detection_off_body).

Definition cmd_motion_detection_on : Update -> M C unit :=
  authorization_check (camera_selection cmd_motion_detection_on_body).

(** [CameraBot.__init__]: the bot as constructed, over the cameras that exist
    and the calls made so far. *)
Definition CameraBot_init (me : string) (user_ids : list Z)
  (cam_instances : Registry) (store : nat -> C) (history : list event)
  : World C :=
  {| _user_ids := user_ids;
     _cam_instances := cam_instances;
     bot_first_name := me;
     cams := store;
     trace := history ++ [Log INFO ("Initializing " ++ me ++ " bot")] |}.

(** The commands behind the authorization gate. *)
Inductive command :=
| Getpic
| Getfullpic
| Stop
| ListCams
| MotionDetectionOff
| MotionDetectionOn.

Definition handler (c : command) : Update -> M C unit :=
  match c with
  | Getpic => cmd_getpic
  | Getfullpic => cmd_getfullpic
  | Stop => cmd_stop
  | ListCams => cmd_list_cams
  | MotionDetectionOff => cmd_motion_detection_off
  | MotionDetectionOn => cmd_motion_detection_on
  end.

(** The four of them that take a camera, with their bodies. *)
Inductive cam_command :=
| CamGetpic
| CamGetfullpic
| CamMotionDetectionOff
| CamMotionDetectionOn.

Definition cam_body (c : cam_command) : Update -> nat -> string -> M C unit :=
  match c with
  | CamGetpic => cmd_getpic_body
  | CamGetfullpic => cmd_getfullpic_body
  | CamMotionDetectionOff => cmd_motion_detection_off_body
  | CamMotionDetectionOn => cmd_motion_detection_on_body
  end.

Definition cam_handler (c : cam_command) : Update -> M C unit :=
  authorization_check (camera_selection (cam_body c)).

(** The camera call a camera-scoped command makes, on a camera in a given
    state: the message of the [HomeCamError] if it fails, and the camera
    after the call. *)
Definition cam_operation (c : cam_command) (cam : C) : option string * C :=
  let failure (r : (string + Photo * Z) * C) :=
    match r with
    | (inl err, cam') => (Some err, cam')
    | (inr _, cam') => (None, cam')
    end in
  match c with
  | CamGetpic => failure (take_snapshot true cam)
  | CamGetfullpic => failure (take_snapshot false cam)
  | CamMotionDetectionOff => motion_detection_switch false cam
  | CamMotionDetectionOn => motion_detection_switch true cam
  end.

Definition cam_operation_call (c : cam_command) (cam : nat) : event :=
  match c with
  | CamGetpic => TakeSnapshot cam true
  | CamGetfullpic => TakeSnapshot cam false
  | CamMotionDetectionOff => MotionDetectionSwitch cam false
  | CamMotionDetectionOn => MotionDetectionSwitch cam true
  end.

(** The two snapshot commands. *)
Definition is_snapshot_command (c : cam_command) : bool :=
  match c with
  | CamGetpic | CamGetfullpic => true
  | _ => false
  end.

(** The text sent when the camera call of a command fails with [err]. *)
Definition failure_text (c : cam_command) (err : string) : string :=
  if is_snapshot_command c
  then err ++ NL ++ "Try later or /list other cameras"
  else err.

(** The footer [cmd_help] composes for a camera. *)
Definition help_footer (data : CamData) : string :=
  "Available commands" ++ NL
  ++ Text.join NL (map slash (commands data))
  ++ " or /list available cameras".

Definition help_pointer : string :=
  "Use /list command to list available cameras and commands".

(** What the gate does with a sender who is not on the allow-list. *)
Definition refusal (update : Update) : list event :=
  [ Log ERROR "User authorization error";
    Log ERROR (_get_user_info update);
    ReplyText (id (chat (message update))) "Not authorized" ].

(** Every operation of the module. *)
Inductive operation :=
| OpCommand (c : command) (update : Update)
| OpHelp (update : Update) (append requested : bool) (cam_id : option string)
| OpErrorHandler (update : Update) (error : exn)
| OpPrintHelper (update : Update) (cam_id : string)
| OpPrintAccessError (update : Update)
| OpSendCamPhoto (photo : Photo) (update : option Update)
    (caption : option string) (reply : string)
    (full_snapshot_name : option string) (full_pic from_watchdog : bool)
| OpSendStartupMessage.

Definition run (op : operation) : M C unit :=
  match op with
  | OpCommand c update => handler c update
  | OpHelp update append requested cam_id =>
      cmd_help update append requested cam_id
  | OpErrorHandler update error => error_handler update error
  | OpPrintHelper update cam_id => _print_helper update cam_id
  | OpPrintAccessError update => _print_access_error update
  | OpSendCamPhoto photo update caption reply full_snapshot_name
      full_pic from_watchdog =>
      send_cam_photo photo update caption reply full_snapshot_name
        full_pic from_watchdog
  | OpSendStartupMessage => send_startup_message
  end.

(** A computation that leaves the allow-list and the registry of the bot as
    they are. *)
Definition keeps_config {A} (m : M C A) : Prop :=
  forall w,
    _user_ids (snd (m w)) = _user_ids w /\
    _cam_instances (snd (m w)) = _cam_instances w.

(** The life of the process: operations one after the other, each from the
    world the one before left, whatever it returned or raised. *)
Fixpoint run_all (ops : list operation) (w : World C) : World C :=
  match ops with
  | [] => w
  | op :: rest => run_all rest (snd (run op w))
  end.

(** The camera-scoped command behind a command, if it is one. *)
Definition as_cam_command (c : command) : option cam_command :=
  match c with
  | Getpic => Some CamGetpic
  | Getfullpic => Some CamGetfullpic
  | MotionDetectionOff => Some CamMotionDetectionOff
  | MotionDetectionOn => Some CamMotionDetectionOn
  | Stop | ListCams => None
  end.

(** A computation that, from a world whose registry satisfies [P], ends
    with no other exception than those of [E]. *)
Definition raises_only {A} (P : Registry -> Prop) (E : exn -> Prop)
  (m : M C A) : Prop :=
  forall w, P (_cam_instances w) ->
            forall e, fst (m w) = Raise e -> E e.

(** A computation that leaves every camera outside [R] as it is. *)
Definition touches_only {A} (R : nat -> Prop) (m : M C A) : Prop :=
  forall w cam, ~ R cam -> cams (snd (m w)) cam = cams w cam.

(** The error of the chat library. *)
Definition is_TelegramError (e : exn) : Prop :=
  exists msg, e = TelegramError msg.

(** The same world with another allow-list. *)
Definition with_user_ids (ids : list Z) (w : World C) : World C :=
  {| _user_ids := ids;
     _cam_instances := _cam_instances w;
     bot_first_name := bot_first_name w;
     cams := cams w;
     trace := trace w |}.

(** Modelled from the spec: the chat library's dispatcher, which is not part
    of this repository.  It hands the update to the handler registered for the
    command; an exception the handler lets through reaches the generic error
    handler, and nothing else happens. *)
Definition process_update (callback : Update -> M C unit) (update : Update)
  : M C unit :=
  fun w =>
    match callback update w with
    | (Ret a, w') => (Ret a, w')
    | (Raise e, w') => error_handler update e w'
    end.

End CameraBot.

(** ** A camera, a chat library and a runtime to run the module on *)

(** A camera that counts its snapshots and fails when it is down. *)
Record TestCam := {
  tc_description : string;
  tc_taken : Z;
  tc_down : bool
}.

Definition test_photo : Photo :=
  {| name := "/tmp/snapshot.jpg"; content := "JFIF" |}.

Definition test_cam_ops : HomeCam TestCam :=
  {| description := tc_description;
     snapshots_taken := tc_taken;
     take_snapshot := fun _ c =>
       if tc_down c then (inl "Camera is down", c)
       else (inr (test_photo, 1700000000%Z),
             {| tc_description := tc_description c;
                tc_taken := tc_taken c + 1;
                tc_down := false |});
     motion_detection_switch := fun _ c =>
       if tc_down c then (Some "Camera is down", c) else (None, c) |}.

(** A chat library that accepts every call, and one that refuses them all. *)
Definition reliable : Telegram := {| transport := fun _ _ => None |}.

Definition unreachable : Telegram :=
  {| transport := fun _ _ => Some "Timed out" |}.

(** A runtime that shows the format and the epoch seconds instead of a date. *)
Definition test_runtime : Runtime :=
  {| strftime := fun fmt ts => fmt ++ "@" ++ Text.str_Z ts;
     repr_key := fun key =>
       match key with
       | Some k => "'" ++ k ++ "'"
       | None => "None"
       end |}.

Definition user42 : Chat :=
  {| id := 42; username := Some "alice"; first_name := Some "Alice";
     last_name := None |}.

Definition user7 : Chat :=
  {| id := 7; username := None; first_name := Some "Mallory";
     last_name := None |}.

Definition front_door (taken : Z) (down : bool) : TestCam :=
  {| tc_description := "Front door"; tc_taken := taken; tc_down := down |}.

(** Allow-list [42]; one camera, [cam_1], with the command [getpic_cam_1]. *)
Definition test_world (taken : Z) (down : bool) : World TestCam :=
  {| _user_ids := [42%Z];
     _cam_instances :=
       [("cam_1", {| instance := 0; commands := ["getpic_cam_1"] |})];
     bot_first_name := "camerabot";
     cams := fun _ => front_door taken down;
     trace := [] |}.

(** The same bot with no camera registered and another camera store. *)
Definition bare_world : World TestCam :=
  {| _user_ids := [42%Z];
     _cam_instances := [];
     bot_first_name := "camerabot";
     cams := fun _ => front_door 5 true;
     trace := [] |}.

(** * Properties *)

(** ** Camera identifier extraction *)

Example extract_getpic : extract_cam_id "/getpic_cam_1" = "cam_1".
Proof. reflexivity. Qed.

Example extract_with_argument :
  extract_cam_id "/getpic_cam_1 cam_2" = "cam_2".
Proof. reflexivity. Qed.

Example extract_second_line :
  extract_cam_id ("/getpic" ++ NL ++ "cam_1") = "/getpic" ++ NL ++ "cam_1".
Proof. reflexivity. Qed.

Lemma length_append (a b : string) :
  String.length (a ++ b) = (String.length a + String.length b)%nat.
Proof. induction a as [|c a IH]; cbn; [reflexivity | now rewrite IH]. Qed.

Lemma prefix_cam_not_LF (c : ascii) (s : string) :
  Text.is_LF c = true -> String.prefix "cam_" (String c s) = false.
Proof.
  unfold Text.is_LF. intros E. apply Ascii.eqb_eq in E. subst c. reflexivity.
Qed.

(** A split of [String c s] into a one-line part and a rest either has an
    empty first part or splits [s]. *)
Lemma split_cons (c : ascii) (s pre rest : string) :
  String c s = pre ++ rest ->
  (pre = EmptyString /\ rest = String c s) \/
  (exists pre', pre = String c pre' /\ s = pre' ++ rest).
Proof.
  destruct pre as [|a pre']; simpl; intros E.
  - left. split; [reflexivity | congruence].
  - right. injection E as -> ->. exists pre'. split; reflexivity.
Qed.

Lemma match_cam_cons (c : ascii) (s : string) :
  Regex.match_cam (String c s) =
  if Text.is_LF c then None
  else match Regex.match_cam s with
       | Some r => Some r
       | None => if String.prefix "cam_" (String c s)
                 then Some (String c s) else None
       end.
Proof.
  unfold Regex.match_cam. cbn [Regex.dot_star].
  destruct (Text.is_LF c) eqn:E.
  - unfold Regex.lookahead. now rewrite (prefix_cam_not_LF c s E).
  - reflexivity.
Qed.

(** When the pattern matches, what is left starts with [cam_] and what was
    matched holds no line feed. *)
Lemma match_cam_sound (t r : string) :
  Regex.match_cam t = Some r ->
  exists pre,
    t = pre ++ r /\ Text.one_line pre = true /\ String.prefix "cam_" r = true.
Proof.
  revert r. induction t as [|c t IH]; intros r.
  - cbn. discriminate.
  - rewrite match_cam_cons. destruct (Text.is_LF c) eqn:E; [discriminate|].
    destruct (Regex.match_cam t) as [r'|].
    + intros [= <-]. destruct (IH r' eq_refl) as (pre & -> & L & P).
      exists (String c pre). cbn. now rewrite E, L.
    + destruct (String.prefix "cam_" (String c t)) eqn:P; [|discriminate].
      intros [= <-]. exists EmptyString. now rewrite P.
Qed.

(** When the pattern does not match, [cam_] does not occur on the first
    line. *)
Lemma match_cam_none (t : string) :
  Regex.match_cam t = None ->
  forall pre r,
    t = pre ++ r -> Text.one_line pre = true ->
    String.prefix "cam_" r = false.
Proof.
  induction t as [|c t IH].
  - intros _ pre r S _. destruct pre; [|discriminate]. cbn in S. now subst r.
  - rewrite match_cam_cons. destruct (Text.is_LF c) eqn:E.
    + intros _ pre r S L.
      destruct (split_cons _ _ _ _ S) as [[-> ->]|(p & -> & ->)].
      * now apply prefix_cam_not_LF.
      * cbn in L. now rewrite E in L.
    + destruct (Regex.match_cam t) as [r0|] eqn:M; [discriminate|].
      destruct (String.prefix "cam_" (String c t)) eqn:P0; [discriminate|].
      intros _ pre r S L.
      destruct (split_cons _ _ _ _ S) as [[-> ->]|(p & -> & ->)].
      * exact P0.
      * cbn in L. apply andb_prop in L. now apply (IH eq_refl p r).
Qed.

(** No occurrence of [cam_] on the first line lies after the one matched. *)
Lemma match_cam_last (t r : string) :
  Regex.match_cam t = Some r ->
  forall pre' r',
    t = pre' ++ r' -> Text.one_line pre' = true ->
    String.prefix "cam_" r' = true ->
    (String.length r <= String.length r')%nat.
Proof.
  revert r. induction t as [|c t IH]; intros r.
  - cbn. discriminate.
  - rewrite match_cam_cons. destruct (Text.is_LF c) eqn:E; [discriminate|].
    destruct (Regex.match_cam t) as [r0|] eqn:M.
    + intros [= <-] pre' r' S L P.
      destruct (split_cons _ _ _ _ S) as [[-> ->]|(p & -> & ->)].
      * destruct (match_cam_sound _ _ M) as (q & -> & _ & _).
        cbn. rewrite length_append. lia.
      * cbn in L. apply andb_prop in L. now apply (IH r0 eq_refl p r').
    + destruct (String.prefix "cam_" (String c t)) eqn:P0; [|discriminate].
      intros [= <-] pre' r' S L P.
      destruct (split_cons _ _ _ _ S) as [[-> ->]|(p & -> & ->)].
      * lia.
      * exfalso. cbn in L. apply andb_prop in L as [_ L].
        now rewrite (match_cam_none _ M p r' eq_refl L) in P.
Qed.

Lemma extract_cam_id_match (t : string) :
  extract_cam_id t =
  match Regex.match_cam t with Some r => r | None => t end.
Proof.
  unfold extract_cam_id, Regex.split_cam.
  now destruct (Regex.match_cam t).
Qed.

(** A one-line verb in front of an identifier the pattern leaves whole is
    matched entirely. *)
Lemma match_cam_after_verb (verb ident : string) :
  Text.one_line verb = true ->
  Regex.match_cam ident = Some ident ->
  Regex.match_cam (verb ++ ident) = Some ident.
Proof.
  intros L Mi. induction verb as [|c v IH]; [exact Mi|].
  cbn in L. apply andb_prop in L as [Lc Lv].
  cbn [append]. rewrite match_cam_cons.
  apply negb_true_iff in Lc. rewrite Lc. now rewrite (IH Lv).
Qed.

(** Without [cam_] anywhere the pattern does not match. *)
Lemma match_cam_no_marker (t : string) :
  Text.contains "cam_" t = false -> Regex.match_cam t = None.
Proof.
  induction t as [|c t IH]; [reflexivity|].
  intros N. cbn [Text.contains] in N. apply orb_false_elim in N as [P N].
  rewrite match_cam_cons, (IH N), P. now destruct (Text.is_LF c).
Qed.

(** C2 (as amended).  The camera identifier is the text from the LAST
    occurrence of [cam_] on the first line (the last place, with no line feed
    before it, where [cam_] starts) to the end of the text, and the whole text
    when there is no such occurrence.  For every verb without a line feed,
    whatever its length, its underscores or the [cam_] it may itself contain,
    the verb followed by [cam_2] yields exactly [cam_2]; so does
    [/motion_detection_on_cam_2]. *)
Theorem extract_cam_id_last_on_first_line :
  (forall text : string,
     (exists pre,
         text = pre ++ extract_cam_id text /\
         Text.one_line pre = true /\
         String.prefix "cam_" (extract_cam_id text) = true /\
         forall pre' rest',
           text = pre' ++ rest' -> Text.one_line pre' = true ->
           String.prefix "cam_" rest' = true ->
           (String.length pre' <= String.length pre)%nat)
     \/
     (extract_cam_id text = text /\
      forall pre rest,
        text = pre ++ rest -> Text.one_line pre = true ->
        String.prefix "cam_" rest = false))
  /\ (forall verb : string,
        Text.one_line verb = true ->
        extract_cam_id (verb ++ "cam_2") = "cam_2")
  /\ extract_cam_id "/motion_detection_on_cam_2" = "cam_2".
Proof.
  split; [|split].
  - intros t. rewrite extract_cam_id_match.
    destruct (Regex.match_cam t) as [r|] eqn:M.
    + left. destruct (match_cam_sound _ _ M) as (pre & E & L & P).
      exists pre. repeat split; try assumption.
      intros pre' rest' E' L' P'.
      pose proof (match_cam_last _ _ M pre' rest' E' L' P') as Hlen.
      assert (Hsum : (String.length pre + String.length r
                      = String.length pre' + String.length rest')%nat).
      { rewrite <- !length_append. congruence. }
      lia.
    + right. split; [reflexivity|]. now apply match_cam_none.
  - intros verb L. rewrite extract_cam_id_match.
    now rewrite (match_cam_after_verb verb "cam_2" L eq_refl).
  - reflexivity.
Qed.

(** A verb that holds [cam_] itself still yields [cam_2]. *)
Lemma extract_cam_id_last_on_first_line_witness :
  Text.one_line "/webcam_motion_detection_on_" = true /\
  extract_cam_id ("/webcam_motion_detection_on_" ++ "cam_2") = "cam_2".
Proof.
  split; [reflexivity|].
  apply (proj1 (proj2 extract_cam_id_last_on_first_line)). reflexivity.
Defined.

(** C2 as stated fails: a command sent with an argument that holds [cam_]
    again.  From the first occurrence the identifier would be
    [cam_1 cam_2]; the code takes [cam_2]. *)
Lemma extract_cam_id_not_first_occurrence :
  from_first_cam "/getpic_cam_1 cam_2" = Some "cam_1 cam_2" /\
  extract_cam_id "/getpic_cam_1 cam_2" = "cam_2" /\
  extract_cam_id "/getpic_cam_1 cam_2" <> "cam_1 cam_2".
Proof.
  split; [reflexivity|]. split; [reflexivity|]. discriminate.
Qed.

(** ** Running the module *)

Section Facts.

Context {C : Type} {cam_ops : HomeCam C} {tg : Telegram} {rt : Runtime}.

Implicit Types (w : World C) (update : Update).

Lemma record_call_emit (e : event) w : record_call e w = emit [e] w.
Proof. reflexivity. Qed.

Lemma emit_emit (es es' : list event) w :
  emit es' (emit es w) = emit (es ++ es') w.
Proof. unfold emit; cbn. now rewrite app_assoc. Qed.

Lemma emit_set_cam (es : list event) (cam : nat) (c : C) w :
  emit es (set_cam cam c w) = set_cam cam c (emit es w).
Proof. reflexivity. Qed.

Lemma log_run (lvl : level) (msg : string) w :
  log lvl msg w = (Ret tt, emit [Log lvl msg] w).
Proof. reflexivity. Qed.

Lemma telegram_call_run (e : event) w :
  telegram_call e w = (delivery (trace w) e, emit [e] w).
Proof.
  unfold telegram_call, delivery. now destruct (transport (trace w) e).
Qed.

Lemma delivery_cases (history : list event) (e : event) :
  delivery history e = Ret tt \/
  exists msg, delivery history e = Raise (TelegramError msg).
Proof.
  unfold delivery. destruct (transport history e) as [msg|]; eauto.
Qed.

(** Opening a run and bringing the worlds and histories it goes through to
    a normal form. *)
Ltac open_run :=
  unfold bind, try_except, gets, ret, raise, log, start_stop_polling_thread;
  cbn beta iota.

Ltac tidy :=
  repeat first
    [ rewrite record_call_emit
    | rewrite emit_emit
    | rewrite emit_set_cam
    | rewrite telegram_call_run
    | progress cbn [trace emit set_cam app cams _user_ids _cam_instances
                    bot_first_name fst snd]
    | progress cbn beta iota ].

Lemma authorization_check_denied (func : Update -> M C unit) update w :
  user_id_in (id (chat (message update))) (_user_ids w) = false ->
  authorization_check func update w =
  ( delivery (trace w ++ [Log ERROR "User authorization error";
                          Log ERROR (_get_user_info update)])
      (ReplyText (id (chat (message update))) "Not authorized"),
    emit (refusal update) w ).
Proof.
  intros D. unfold authorization_check, try_except, bind, gets.
  rewrite D. cbn [negb raise]. unfold _print_access_error, reply_text.
  open_run. now tidy.
Qed.

(** With the sender on the allow-list the gate is transparent, unless the
    handler itself raises [UserAuthError]. *)
Lemma authorization_check_allowed (func : Update -> M C unit) update w :
  user_id_in (id (chat (message update))) (_user_ids w) = true ->
  (forall w', func update w <> (Raise UserAuthError, w')) ->
  authorization_check func update w = func update w.
Proof.
  intros A N. unfold authorization_check, try_except, bind, gets.
  rewrite A. cbn [negb].
  destruct (func update w) as [[a|e] w'] eqn:F; [reflexivity|].
  destruct e; try reflexivity. now destruct (N w').
Qed.

Lemma camera_selection_run (func : Update -> nat -> string -> M C unit)
  update w :
  camera_selection func update w =
  let cam_id := extract_cam_id (text (message update)) in
  match registry_get (_cam_instances w) cam_id with
  | Some data => func update (instance data) cam_id w
  | None => (Raise (KeyError (Some cam_id)), w)
  end.
Proof.
  unfold camera_selection, bind, cam_instances_get. cbn zeta.
  now destruct (registry_get _ _).
Qed.


(** ** The authorization gate *)

(** C1.  A sender who is not on the allow-list: whatever the wrapped handler
    is, and for each command of the bot, the run makes exactly three calls,
    in this order: two records at error severity (the second with the user
    id, the username, the first and the last name), then one reply
    [Not authorized] to the chat the command came from.  There is no camera
    call, the outcome does not depend on the wrapped handler (it is not
    invoked), the cameras are as before, and [UserAuthError] does not leave
    the gate: the run returns normally when the chat library takes the reply,
    and otherwise ends with the chat library's own error. *)
Theorem unauthorized_is_refused (func : Update -> M C unit) (c : command)
  update w :
  user_id_in (id (chat (message update))) (_user_ids w) = false ->
  let logged :=
    [ Log ERROR "User authorization error";
      Log ERROR
        ("Request from user_id: " ++ Text.str_Z (id (chat (message update)))
         ++ ", username: " ++ Text.fmt_opt (username (chat (message update)))
         ++ ", first_name: "
         ++ Text.fmt_opt (first_name (chat (message update)))
         ++ ", last_name: "
         ++ Text.fmt_opt (last_name (chat (message update)))) ] in
  let reply := ReplyText (id (chat (message update))) "Not authorized" in
  let outcome := delivery (trace w ++ logged) reply in
  authorization_check func update w = (outcome, emit (logged ++ [reply]) w)
  /\ handler c update w = (outcome, emit (logged ++ [reply]) w)
  /\ filter is_reply (logged ++ [reply]) = [reply]
  /\ filter is_camera_call (logged ++ [reply]) = []
  /\ cams (snd (handler c update w)) = cams w
  /\ (forall e, outcome = Raise e ->
                 exists msg,
                   e = TelegramError msg
                   /\ transport (trace w ++ logged) reply = Some msg)
  /\ (transport (trace w ++ logged) reply = None -> outcome = Ret tt).
Proof.
  intros D logged reply outcome.
  assert (G : forall f, authorization_check f update w
                        = (outcome, emit (logged ++ [reply]) w)).
  { intros f. now rewrite (authorization_check_denied f update w D). }
  assert (H : handler c update w = (outcome, emit (logged ++ [reply]) w)).
  { destruct c; apply G. }
  repeat split.
  - apply G.
  - exact H.
  - now rewrite H.
  - intros e. subst outcome. unfold delivery.
    destruct (transport _ _) as [msg|]; [|discriminate].
    intros [= <-]. now exists msg.
  - intros T. subst outcome. unfold delivery. now rewrite T.
Qed.

(** C10.  A sender who is not on the allow-list, one camera-scoped command,
    two texts from that sender and two worlds that agree on the allow-list
    and on the calls made so far, but hold any registries and any cameras:
    the two runs end the same way with the same calls.  The outcome is never
    [KeyError], the cameras and the registry are as before and no camera is
    called: the identifier is neither extracted nor looked up. *)
Theorem unauthorized_outcome_independent (c : cam_command) (sender : Chat)
  (text1 text2 : string) (w1 w2 : World C) :
  user_id_in (id sender) (_user_ids w1) = false ->
  _user_ids w2 = _user_ids w1 ->
  trace w2 = trace w1 ->
  let run1 := cam_handler c (inbound sender text1) w1 in
  let run2 := cam_handler c (inbound sender text2) w2 in
  fst run1 = fst run2
  /\ trace (snd run1) = trace (snd run2)
  /\ (forall key, fst run1 <> Raise (KeyError key))
  /\ (forall key, fst run2 <> Raise (KeyError key))
  /\ trace (snd run1) = (trace w1 ++ refusal (inbound sender text1))%list
  /\ filter is_camera_call (refusal (inbound sender text1)) = []
  /\ cams (snd run1) = cams w1 /\ cams (snd run2) = cams w2
  /\ _cam_instances (snd run1) = _cam_instances w1
  /\ _cam_instances (snd run2) = _cam_instances w2.
Proof.
  intros D U T run1 run2. subst run1 run2. unfold cam_handler.
  assert (D2 : user_id_in (id sender) (_user_ids w2) = false) by now rewrite U.
  rewrite (authorization_check_denied _ (inbound sender text1) w1 D).
  rewrite (authorization_check_denied _ (inbound sender text2) w2 D2).
  cbn [fst snd trace emit cams _cam_instances]. rewrite T.
  repeat split; try reflexivity.
  - intros key. unfold delivery. destruct (transport _ _); discriminate.
  - intros key. unfold delivery. destruct (transport _ _); discriminate.
Qed.

(** ** The camera resolver *)

Lemma registry_get_In (registry : Registry) (key : string) (data : CamData) :
  registry_get registry key = Some data -> In (key, data) registry.
Proof.
  induction registry as [|[k v] rest IH]; cbn; [discriminate|].
  destruct (String.eqb k key) eqn:E.
  - apply String.eqb_eq in E. intros [= ->]. left. now subst.
  - intros G. right. now apply IH.
Qed.

(** The keys of a dict are distinct, so a key has one entry. *)
Lemma registry_entry_unique (registry : Registry) (key : string)
  (d d' : CamData) :
  NoDup (map fst registry) ->
  In (key, d) registry -> In (key, d') registry -> d = d'.
Proof.
  induction registry as [|[k v] rest IH]; cbn; [contradiction|].
  intros N [E|I] [E'|I'].
  - congruence.
  - injection E as -> ->. inversion N as [|? ? Nk _]; subst.
    destruct Nk. now apply (in_map fst rest (key, d')).
  - injection E' as -> ->. inversion N as [|? ? Nk _]; subst.
    destruct Nk. now apply (in_map fst rest (key, d)).
  - inversion N; subst. now apply IH.
Qed.

(** An allow-listed sender and an identifier the registry does not hold. *)
Lemma cam_handler_unknown (c : cam_command) update w :
  user_id_in (id (chat (message update))) (_user_ids w) = true ->
  registry_get (_cam_instances w) (extract_cam_id (text (message update)))
  = None ->
  cam_handler c update w
  = (Raise (KeyError (Some (extract_cam_id (text (message update))))), w).
Proof.
  intros A N. unfold cam_handler.
  assert (S : camera_selection (cam_body c) update w
              = (Raise (KeyError (Some (extract_cam_id
                                          (text (message update))))), w)).
  { rewrite camera_selection_run. cbn zeta. now rewrite N. }
  rewrite authorization_check_allowed; [exact S | exact A |].
  intros w'. rewrite S. discriminate.
Qed.

(** C3.  For an allow-listed sender of a camera-scoped command whose
    extracted identifier is not a key of the registry, the handler ends with
    [KeyError] on that identifier and has made no call at all: no reply, no
    camera call, the world is as before.  Handed to the generic error
    handler, the error becomes one record at error severity and still no
    reply.  Conversely the resolver either finds no entry and raises without
    running the body, whatever the body, or runs the body on the camera of
    the entry the registry holds for the identifier, which is the only entry
    for it when the keys are distinct. *)
Theorem unknown_camera_is_not_handled (c : cam_command) update w :
  let cam_id := extract_cam_id (text (message update)) in
  (user_id_in (id (chat (message update))) (_user_ids w) = true ->
   registry_get (_cam_instances w) cam_id = None ->
   cam_handler c update w = (Raise (KeyError (Some cam_id)), w)
   /\ process_update (cam_handler c) update w
      = (Ret tt,
         emit [Log ERROR ("Got error: " ++ repr_key (Some cam_id))] w)
   /\ filter is_reply
        [Log ERROR ("Got error: " ++ repr_key (Some cam_id))] = [])
  /\ ((registry_get (_cam_instances w) cam_id = None
       /\ forall func,
            camera_selection func update w
            = (Raise (KeyError (Some cam_id)), w))
      \/
      (exists data,
          registry_get (_cam_instances w) cam_id = Some data
          /\ In (cam_id, data) (_cam_instances w)
          /\ (NoDup (map fst (_cam_instances w)) ->
              forall data', In (cam_id, data') (_cam_instances w) ->
                            data' = data)
          /\ forall func,
               camera_selection func update w
               = func update (instance data) cam_id w)).
Proof.
  intros cam_id. split.
  - intros A N. pose proof (cam_handler_unknown c update w A N) as H.
    fold cam_id in H. split; [exact H|]. split; [|reflexivity].
    unfold process_update. rewrite H. reflexivity.
  - destruct (registry_get (_cam_instances w) cam_id) as [data|] eqn:G.
    + right. exists data. repeat split.
      * now apply registry_get_In.
      * intros N data' I. symmetry.
        eapply registry_entry_unique; eauto using registry_get_In.
      * intros func. rewrite camera_selection_run. cbn zeta.
        fold cam_id. now rewrite G.
    + left. split; [reflexivity|]. intros func.
      rewrite camera_selection_run. cbn zeta. fold cam_id. now rewrite G.
Qed.

(** C9.  A text in which [cam_] does not occur is its own camera identifier:
    the resolver looks the whole text up, runs the body on the entry when the
    text is a key of the registry, and raises [KeyError] on the text when it
    is not; so does the whole handler for an allow-listed sender. *)
Theorem no_marker_whole_text_is_identifier
  (func : Update -> nat -> string -> M C unit) (c : cam_command) update w :
  Text.contains "cam_" (text (message update)) = false ->
  extract_cam_id (text (message update)) = text (message update)
  /\ camera_selection func update w
     = match registry_get (_cam_instances w) (text (message update)) with
       | Some data => func update (instance data) (text (message update)) w
       | None => (Raise (KeyError (Some (text (message update)))), w)
       end
  /\ (user_id_in (id (chat (message update))) (_user_ids w) = true ->
      registry_get (_cam_instances w) (text (message update)) = None ->
      cam_handler c update w
      = (Raise (KeyError (Some (text (message update)))), w)).
Proof.
  intros N.
  assert (E : extract_cam_id (text (message update)) = text (message update)).
  { rewrite extract_cam_id_match. now rewrite (match_cam_no_marker _ N). }
  split; [exact E|]. split.
  - rewrite camera_selection_run. cbn zeta. now rewrite E.
  - intros A G. rewrite <- E in G.
    rewrite (cam_handler_unknown c update w A G). now rewrite E.
Qed.

(** ** Camera failures *)

Lemma take_snapshot_failure (resize : bool) (cam : C) (err : string)
  (cam' : C) :
  (match take_snapshot resize cam with
   | (inl e, c') => (Some e, c')
   | (inr _, c') => (None, c')
   end) = (Some err, cam') ->
  take_snapshot resize cam = (inl err, cam').
Proof.
  destruct (take_snapshot resize cam) as [[e|shot] c']; [|discriminate].
  now intros [= -> ->].
Qed.

Lemma motion_detection_body_failure (enable : bool) (requested done : string)
  update (cam : nat) (cam_id : string) w (err : string) (cam' : C) :
  motion_detection_switch enable (cams w cam) = (Some err, cam') ->
  let logs := [Log INFO requested; Log DEBUG (_get_user_info update)] in
  let call := MotionDetectionSwitch cam enable in
  let reply := ReplyText (id (chat (message update))) err in
  motion_detection_body enable requested done update cam cam_id w
  = (delivery (trace w ++ logs ++ [call]) reply,
     set_cam cam cam' (emit (logs ++ [call; reply]) w)).
Proof.
  intros F. unfold motion_detection_body, cam_motion_detection_switch,
    on_HomeCamError, reply_text.
  open_run. tidy. rewrite F. tidy. reflexivity.
Qed.

Lemma cam_body_failure (c : cam_command) update (cam : nat) (cam_id : string)
  w (err : string) (cam' : C) :
  cam_operation c (cams w cam) = (Some err, cam') ->
  exists logs,
    forallb is_log logs = true /\
    cam_body c update cam cam_id w
    = (delivery (trace w ++ logs ++ [cam_operation_call c cam])
         (ReplyText (id (chat (message update))) (failure_text c err)),
       set_cam cam cam'
         (emit (logs ++ [cam_operation_call c cam;
                         ReplyText (id (chat (message update)))
                           (failure_text c err)]) w)).
Proof.
  destruct c; cbn [cam_operation cam_body cam_operation_call]; intros F.
  - apply take_snapshot_failure in F.
    exists [Log INFO ("Resized cam snapshot from "
                      ++ description (cams w cam) ++ " requested");
            Log DEBUG (_get_user_info update)].
    split; [reflexivity|].
    unfold cmd_getpic_body, cam_take_snapshot, on_HomeCamError, reply_text.
    open_run. tidy. rewrite F. tidy.
    unfold failure_text, snapshot_failed_text. cbn [is_snapshot_command].
    now destruct (delivery _ _) as [[]|e].
  - apply take_snapshot_failure in F.
    exists [Log INFO "Full cam snapshot requested";
            Log DEBUG (_get_user_info update)].
    split; [reflexivity|].
    unfold cmd_getfullpic_body, cam_take_snapshot, on_HomeCamError, reply_text.
    open_run. tidy. rewrite F. tidy.
    unfold failure_text, snapshot_failed_text. cbn [is_snapshot_command].
    now destruct (delivery _ _) as [[]|e].
  - eexists. split; [|now apply motion_detection_body_failure]. reflexivity.
  - eexists. split; [|now apply motion_detection_body_failure]. reflexivity.
Qed.

Lemma prefix_append (a b : string) : String.prefix a (a ++ b) = true.
Proof.
  induction a as [|c a IH]; cbn; [now destruct b|].
  destruct (ascii_dec c c); [exact IH | congruence].
Qed.

Lemma contains_of_prefix (needle hay : string) :
  String.prefix needle hay = true -> Text.contains needle hay = true.
Proof. intros P. destruct hay; cbn [Text.contains]; now rewrite P. Qed.

(** [needle in (before + needle + after)] *)
Lemma contains_infix (needle before after : string) :
  Text.contains needle (before ++ needle ++ after) = true.
Proof.
  induction before as [|c before IH].
  - cbn [append]. apply contains_of_prefix, prefix_append.
  - cbn [append Text.contains]. rewrite IH. apply orb_true_r.
Qed.

Lemma contains_prefix (needle after : string) :
  Text.contains needle (needle ++ after) = true.
Proof. exact (contains_infix needle EmptyString after). Qed.

Lemma append_empty_r (s : string) : s ++ EmptyString = s.
Proof. induction s as [|c s IH]; cbn; [reflexivity | now rewrite IH]. Qed.

Lemma contains_self (s : string) : Text.contains s s = true.
Proof.
  rewrite <- (append_empty_r s) at 2. apply contains_prefix.
Qed.

Lemma logs_hold_no_reply (logs : list event) :
  forallb is_log logs = true -> filter is_reply logs = [].
Proof.
  induction logs as [|e logs IH]; [reflexivity|].
  cbn [forallb filter]. intros H. apply andb_prop in H as [L R].
  destruct e; try discriminate. cbn. now apply IH.
Qed.

Lemma logs_hold_no_camera_call (logs : list event) :
  forallb is_log logs = true -> filter is_camera_call logs = [].
Proof.
  induction logs as [|e logs IH]; [reflexivity|].
  cbn [forallb filter]. intros H. apply andb_prop in H as [L R].
  destruct e; try discriminate. cbn. now apply IH.
Qed.

(** C4.  An allow-listed sender, a camera-scoped command whose identifier
    resolves, and a camera call that fails with the camera error [err]: after
    records on the logger only, the run makes the camera call and then one
    reply, a text that holds [err]; for the two snapshot commands the text is
    [err], a new line and [Try later or /list other cameras].  This is the
    only call on the chat library, so no help footer follows.  The camera
    error does not leave the handler: the run returns normally when the chat
    library takes the reply, and the only error it can end with is the chat
    library's own, raised by that reply. *)
Theorem camera_failure_is_reported (c : cam_command) update w
  (data : CamData) (err : string) (cam' : C) :
  user_id_in (id (chat (message update))) (_user_ids w) = true ->
  registry_get (_cam_instances w) (extract_cam_id (text (message update)))
  = Some data ->
  cam_operation c (cams w (instance data)) = (Some err, cam') ->
  let call := cam_operation_call c (instance data) in
  let reply := ReplyText (id (chat (message update))) (failure_text c err) in
  exists logs,
    forallb is_log logs = true
    /\ cam_handler c update w
       = (delivery (trace w ++ logs ++ [call]) reply,
          set_cam (instance data) cam' (emit (logs ++ [call; reply]) w))
    /\ filter is_reply (logs ++ [call; reply]) = [reply]
    /\ filter is_camera_call (logs ++ [call; reply]) = [call]
    /\ Text.contains err (failure_text c err) = true
    /\ (is_snapshot_command c = true ->
        failure_text c err = err ++ NL ++ "Try later or /list other cameras")
    /\ (forall e,
          delivery (trace w ++ logs ++ [call]) reply = Raise e ->
          exists msg,
            e = TelegramError msg
            /\ transport (trace w ++ logs ++ [call]) reply = Some msg)
    /\ (transport (trace w ++ logs ++ [call]) reply = None ->
        delivery (trace w ++ logs ++ [call]) reply = Ret tt).
Proof.
  intros A G F call reply.
  destruct (cam_body_failure c update (instance data)
              (extract_cam_id (text (message update))) w err cam' F)
    as (logs & L & B).
  fold call reply in B.
  assert (S : camera_selection (cam_body c) update w
              = (delivery (trace w ++ logs ++ [call]) reply,
                 set_cam (instance data) cam'
                   (emit (logs ++ [call; reply]) w))).
  { rewrite camera_selection_run. cbn zeta. rewrite G. exact B. }
  exists logs. split; [exact L|]. split.
  { unfold cam_handler.
    rewrite authorization_check_allowed; [exact S | exact A |].
    intros w'. rewrite S. unfold delivery.
    destruct (transport _ _); discriminate. }
  split.
  { rewrite filter_app, (logs_hold_no_reply logs L).
    subst call. now destruct c. }
  split.
  { rewrite filter_app, (logs_hold_no_camera_call logs L).
    subst call. now destruct c. }
  split.
  { unfold failure_text. destruct (is_snapshot_command c).
    - apply contains_prefix.
    - apply contains_self. }
  split.
  { intros S'. unfold failure_text. now rewrite S'. }
  split.
  - intros e. unfold delivery.
    destruct (transport _ _) as [msg|]; [|discriminate].
    intros [= <-]. now exists msg.
  - intros T. unfold delivery. now rewrite T.
Qed.

(** ** A snapshot that succeeds *)

Lemma append_assoc (a b c : string) : (a ++ b) ++ c = a ++ b ++ c.
Proof. induction a as [|x a IH]; cbn; [reflexivity | now rewrite IH]. Qed.

Lemma prefix_split (needle hay : string) :
  String.prefix needle hay = true -> exists after, hay = needle ++ after.
Proof.
  revert hay. induction needle as [|c needle IH]; intros hay.
  - intros _. now exists hay.
  - destruct hay as [|d hay]; cbn; [discriminate|].
    destruct (ascii_dec c d) as [->|]; [|discriminate].
    intros P. destruct (IH hay P) as (after & ->). now exists after.
Qed.

(** [needle in hay] says that [hay] is some text, [needle], some text. *)
Lemma contains_spec (needle hay : string) :
  Text.contains needle hay = true <->
  exists before after, hay = before ++ needle ++ after.
Proof.
  split.
  - induction hay as [|c hay IH]; cbn [Text.contains]; intros H;
      apply orb_prop in H as [P|R]; try discriminate.
    + destruct (prefix_split _ _ P) as (after & ->). now exists EmptyString, after.
    + destruct (prefix_split _ _ P) as (after & E). exists EmptyString, after.
      exact E.
    + destruct (IH R) as (before & after & ->).
      now exists (String c before), after.
  - intros (before & after & ->). apply contains_infix.
Qed.

(** Text around a text keeps what the text holds. *)
Lemma contains_within (needle before hay after : string) :
  Text.contains needle hay = true ->
  Text.contains needle (before ++ hay ++ after) = true.
Proof.
  intros H. apply contains_spec in H as (a & b & ->).
  apply contains_spec. exists (before ++ a), (b ++ after).
  now rewrite !append_assoc.
Qed.

Lemma join_contains (sep item : string) (items : list string) :
  In item items -> Text.contains item (Text.join sep items) = true.
Proof.
  induction items as [|x rest IH]; [contradiction|].
  intros [->|I].
  - destruct rest as [|y rest]; cbn [Text.join].
    + apply contains_self.
    + apply contains_prefix.
  - destruct rest as [|y rest]; [contradiction|].
    apply contains_spec in IH as (a & b & E); [|exact I].
    apply contains_spec. exists (x ++ sep ++ a), b.
    change (Text.join sep (x :: y :: rest))
      with (x ++ sep ++ Text.join sep (y :: rest)).
    rewrite E. now rewrite !append_assoc.
Qed.

(** What [cmd_help] does, flag by flag. *)
Lemma cmd_help_run update (append requested : bool) (cam_id : option string)
  w :
  let chat_id := id (chat (message update)) in
  let sent := Log INFO "Help message has been sent" in
  cmd_help update append requested cam_id w =
  if requested then
    let asked := [Log INFO "Help message has been requested";
                  Log DEBUG (_get_user_info update)] in
    match delivery (trace w ++ asked) (ReplyText chat_id help_pointer) with
    | Ret _ =>
        (Ret tt, emit (asked ++ [ReplyText chat_id help_pointer; sent]) w)
    | Raise e => (Raise e, emit (asked ++ [ReplyText chat_id help_pointer]) w)
    end
  else if append then
    match cam_id with
    | Some key =>
        match registry_get (_cam_instances w) key with
        | Some data =>
            match delivery (trace w) (ReplyText chat_id (help_footer data))
            with
            | Ret _ =>
                (Ret tt, emit [ReplyText chat_id (help_footer data); sent] w)
            | Raise e =>
                (Raise e, emit [ReplyText chat_id (help_footer data)] w)
            end
        | None => (Raise (KeyError cam_id), w)
        end
    | None => (Raise (KeyError None), w)
    end
  else (Ret tt, emit [sent] w).
Proof.
  cbn zeta. unfold cmd_help, reply_text, cam_instances_get.
  destruct requested; [|destruct append].
  - open_run. tidy. now destruct (delivery _ _) as [[]|e]; tidy.
  - open_run. destruct cam_id as [key|]; [|reflexivity].
    destruct (registry_get _ key) as [data|]; [|reflexivity].
    tidy. now destruct (delivery _ _) as [[]|e]; tidy.
  - open_run. now tidy.
Qed.

(** [cmd_getpic_body] when the snapshot succeeds and the chat library takes
    every call. *)
Lemma cmd_getpic_body_success update (cam : nat) (cam_id : string) w
  (data : CamData) (photo : Photo) (ts : Z) (cam' : C) :
  registry_get (_cam_instances w) cam_id = Some data ->
  take_snapshot true (cams w cam) = (inr (photo, ts), cam') ->
  (forall history e, transport history e = None) ->
  let chat_id := id (chat (message update)) in
  cmd_getpic_body update cam cam_id w
  = (Ret tt,
     set_cam cam cam'
       (emit
          [ Log INFO ("Resized cam snapshot from "
                      ++ description (cams w cam) ++ " requested");
            Log DEBUG (_get_user_info update);
            TakeSnapshot cam true;
            Log INFO "Sending resized cam snapshot";
            ReplyText chat_id ("Sending pic from " ++ description cam' ++ "...");
            ReplyPhoto chat_id photo
              (Some (pic_caption ts (snapshots_taken cam')));
            Log INFO "Resized snapshot sent";
            ReplyText chat_id (help_footer data);
            Log INFO "Help message has been sent" ] w)).
Proof.
  intros G T D chat_id.
  assert (Dv : forall history e, delivery history e = Ret tt).
  { intros h e. unfold delivery. now rewrite D. }
  unfold cmd_getpic_body, cam_take_snapshot, on_HomeCamError.
  open_run. tidy. rewrite T. tidy. rewrite Nat.eqb_refl.
  unfold send_cam_photo, reply_text, reply_photo. open_run. tidy.
  rewrite !Dv. tidy.
  unfold _print_helper. rewrite cmd_help_run. cbn zeta. tidy.
  rewrite G, Dv. tidy. reflexivity.
Qed.

(** C5.  An allow-listed sender of [cmd_getpic], an identifier that resolves
    to a registry entry, a snapshot that succeeds, and a chat library that
    takes every call: the run returns normally; it sends exactly one photo,
    whose caption holds the formatted snapshot time and [pic #] followed by
    the counter the camera shows after the snapshot; after the photo it sends
    exactly one more reply, the help footer, which holds every command of the
    entry with a slash in front.  The replies are, in order, the
    acknowledgment text, the photo and the footer. *)
Theorem getpic_sends_photo_then_footer update w (data : CamData)
  (photo : Photo) (ts : Z) (cam' : C) :
  user_id_in (id (chat (message update))) (_user_ids w) = true ->
  registry_get (_cam_instances w) (extract_cam_id (text (message update)))
  = Some data ->
  take_snapshot true (cams w (instance data)) = (inr (photo, ts), cam') ->
  (forall history e, transport history e = None) ->
  let chat_id := id (chat (message update)) in
  let caption :=
    "Pic taken on " ++ strftime "%a %b %-d %H:%M:%S %Y" ts
    ++ " (pic #" ++ Text.str_Z (snapshots_taken cam') ++ ")" in
  let footer :=
    "Available commands" ++ NL
    ++ Text.join NL (map (fun cmd => "/" ++ cmd) (commands data))
    ++ " or /list available cameras" in
  let acknowledgment :=
    ReplyText chat_id ("Sending pic from " ++ description cam' ++ "...") in
  exists before between after,
    cmd_getpic update w
    = (Ret tt,
       set_cam (instance data) cam'
         (emit (before
                ++ [ReplyPhoto chat_id photo (Some caption)]
                ++ between
                ++ [ReplyText chat_id footer]
                ++ after) w))
    /\ filter is_reply before = [acknowledgment]
    /\ filter is_photo_reply before = []
    /\ filter is_reply between = []
    /\ filter is_reply after = []
    /\ filter is_camera_call (before ++ between ++ after)
       = [TakeSnapshot (instance data) true]
    /\ Text.contains ("pic #" ++ Text.str_Z (snapshots_taken cam')) caption
       = true
    /\ Text.contains (strftime "%a %b %-d %H:%M:%S %Y" ts) caption = true
    /\ (forall cmd, In cmd (commands data) ->
                    Text.contains ("/" ++ cmd) footer = true).
Proof.
  intros A G T D chat_id caption footer acknowledgment.
  exists [ Log INFO ("Resized cam snapshot from "
                     ++ description (cams w (instance data)) ++ " requested");
           Log DEBUG (_get_user_info update);
           TakeSnapshot (instance data) true;
           Log INFO "Sending resized cam snapshot";
           acknowledgment ],
         [ Log INFO "Resized snapshot sent" ],
         [ Log INFO "Help message has been sent" ].
  split.
  { unfold cmd_getpic.
    assert (S : camera_selection cmd_getpic_body update w
                = cmd_getpic_body update (instance data)
                    (extract_cam_id (text (message update))) w).
    { rewrite camera_selection_run. cbn zeta. now rewrite G. }
    rewrite authorization_check_allowed; [| exact A |].
    - rewrite S.
      now rewrite (cmd_getpic_body_success update (instance data) _ w data
                     photo ts cam' G T D).
    - intros w'. rewrite S.
      rewrite (cmd_getpic_body_success update (instance data) _ w data
                 photo ts cam' G T D).
      discriminate. }
  repeat (split; [reflexivity|]).
  split; [|split].
  - subst caption. apply contains_spec.
    exists ("Pic taken on " ++ strftime "%a %b %-d %H:%M:%S %Y" ts ++ " ("),
           ")".
    now rewrite !append_assoc.
  - subst caption. apply contains_infix.
  - intros cmd I. subst footer.
    assert (J : Text.contains ("/" ++ cmd)
                  (Text.join NL (map (fun c => "/" ++ c) (commands data)))
                = true).
    { apply join_contains. now apply (in_map (fun c => "/" ++ c)). }
    apply contains_spec in J as (a & b & ->). apply contains_spec.
    exists ("Available commands" ++ NL ++ a),
           (b ++ " or /list available cameras").
    now rewrite !append_assoc.
Qed.

(** ** The list of cameras *)

Lemma cmd_list_cams_body_run update w :
  let asked := Log INFO "Camera list has been requested" in
  let html :=
    ReplyHtml (id (chat (message update)))
      (Text.join (NL ++ NL)
         (list_header (length (_cam_instances w)) :: cam_blocks w)) in
  cmd_list_cams_body update w
  = (delivery (trace w ++ [asked]) html,
     emit ([asked; html]
           ++ match delivery (trace w ++ [asked]) html with
              | Ret _ => [Log INFO "Camera list has been sent"]
              | Raise _ => []
              end) w).
Proof.
  cbn zeta. unfold cmd_list_cams_body, reply_html. open_run. tidy.
  unfold cam_blocks at 1 2. tidy.
  now destruct (delivery _ _) as [[]|e]; tidy.
Qed.

(** C6.  An allow-listed sender of [cmd_list_cams], a registry of N
    cameras: the run makes exactly one call on the chat library, one HTML
    reply to the sender's chat.  Its text is a header and N blocks, joined by
    blank lines, one block per registry entry in the order of the registry;
    the block of an entry names its identifier, the description of its
    camera and its commands, each with a slash in front. *)
Theorem list_cams_one_block_per_camera update w :
  user_id_in (id (chat (message update))) (_user_ids w) = true ->
  let asked := Log INFO "Camera list has been requested" in
  let blocks := cam_blocks w in
  let body :=
    Text.join (NL ++ NL)
      (("<b>You have " ++ Text.str_nat (length (_cam_instances w))
        ++ " cameras:</b>") :: blocks) in
  let html := ReplyHtml (id (chat (message update))) body in
  exists after,
    cmd_list_cams update w
    = (delivery (trace w ++ [asked]) html, emit ([asked; html] ++ after) w)
    /\ filter is_reply ([asked; html] ++ after) = [html]
    /\ length blocks = length (_cam_instances w)
    /\ (forall (i : nat) (cam_id : string) (data : CamData),
          nth_error (_cam_instances w) i = Some (cam_id, data) ->
          let block :=
            "<b>Camera:</b> " ++ cam_id ++ NL
            ++ "<b>Description:</b> "
            ++ description (cams w (instance data)) ++ NL
            ++ "<b>Commands:</b> "
            ++ Text.join ", " (map (fun cmd => "/" ++ cmd) (commands data)) in
          nth_error blocks i = Some block
          /\ Text.contains block body = true
          /\ Text.contains cam_id block = true
          /\ Text.contains (description (cams w (instance data))) block = true
          /\ forall cmd, In cmd (commands data) ->
                         Text.contains ("/" ++ cmd) block = true).
Proof.
  intros A asked blocks body html.
  pose proof (cmd_list_cams_body_run update w) as R. cbn zeta in R.
  fold asked in R. fold blocks in R.
  change (Text.join (NL ++ NL)
            (list_header (length (_cam_instances w)) :: blocks))
    with body in R.
  fold html in R.
  exists (match delivery (trace w ++ [asked]) html with
          | Ret _ => [Log INFO "Camera list has been sent"]
          | Raise _ => []
          end).
  split.
  { unfold cmd_list_cams.
    rewrite authorization_check_allowed; [exact R | exact A |].
    intros w'. rewrite R. unfold delivery.
    destruct (transport _ _); discriminate. }
  split.
  { now destruct (delivery _ _). }
  split.
  { subst blocks. unfold cam_blocks. apply length_map. }
  intros i cam_id data N block.
  assert (B : nth_error blocks i = Some block).
  { subst blocks. unfold cam_blocks. rewrite nth_error_map, N. reflexivity. }
  split; [exact B|]. split; [|split; [|split]].
  - subst body. apply join_contains. right.
    now apply (nth_error_In blocks i).
  - subst block. apply contains_infix.
  - subst block. apply contains_spec.
    exists ("<b>Camera:</b> " ++ cam_id ++ NL ++ "<b>Description:</b> "),
           (NL ++ "<b>Commands:</b> "
            ++ Text.join ", " (map (fun cmd => "/" ++ cmd) (commands data))).
    now rewrite !append_assoc.
  - intros cmd I.
    assert (J : Text.contains ("/" ++ cmd)
                  (Text.join ", " (map (fun c => "/" ++ c) (commands data)))
                = true).
    { apply join_contains. now apply (in_map (fun c => "/" ++ c)). }
    apply contains_spec in J as (a & b & E). subst block. rewrite E.
    apply contains_spec.
    exists ("<b>Camera:</b> " ++ cam_id ++ NL ++ "<b>Description:</b> "
            ++ description (cams w (instance data)) ++ NL
            ++ "<b>Commands:</b> " ++ a), b.
    now rewrite !append_assoc.
Qed.

(** ** Help *)

(** C7 (as amended).  What [cmd_help] sends is decided by its flags.  With
    [requested] set, whatever [append] is, it makes one call on the chat
    library: the pointer to [/list].  With [requested] unset and [append]
    set, and the camera identifier a key of the registry, it makes one call
    on the chat library: the command list of that camera, and not the
    pointer; with an identifier that is missing or not a key it raises
    [KeyError] and makes no call.  With both flags unset it sends nothing
    and only records that help was sent. *)
Theorem help_modes update (append requested : bool)
  (cam_id : option string) w :
  let chat_id := id (chat (message update)) in
  let pointer :=
    ReplyText chat_id
      "Use /list command to list available cameras and commands" in
  let footer (data : CamData) :=
    ReplyText chat_id
      ("Available commands" ++ NL
       ++ Text.join NL (map (fun cmd => "/" ++ cmd) (commands data))
       ++ " or /list available cameras") in
  let run := cmd_help update append requested cam_id w in
  (requested = true ->
   exists calls,
     trace (snd run) = (trace w ++ calls)%list
     /\ filter is_reply calls = [pointer]
     /\ (forall data, ~ In (footer data) calls))
  /\ (requested = false -> append = true ->
      forall key data,
        cam_id = Some key ->
        registry_get (_cam_instances w) key = Some data ->
        exists calls,
          trace (snd run) = (trace w ++ calls)%list
          /\ filter is_reply calls = [footer data]
          /\ ~ In pointer calls)
  /\ (requested = false -> append = true ->
      match cam_id with
      | Some key => registry_get (_cam_instances w) key = None
      | None => True
      end ->
      run = (Raise (KeyError cam_id), w))
  /\ (requested = false -> append = false ->
      run = (Ret tt, emit [Log INFO "Help message has been sent"] w)).
Proof.
  intros chat_id pointer footer run.
  pose proof (cmd_help_run update append requested cam_id w) as R.
  cbn zeta in R. fold chat_id in R. fold run in R.
  split; [|split; [|split]].
  - intros ->. destruct (delivery _ _) as [[]|e] in R; rewrite R;
      eexists; (split; [reflexivity|]); (split; [reflexivity|]);
      intros data; cbn; intuition discriminate.
  - intros -> -> key data -> G. rewrite G in R.
    destruct (delivery _ _) as [[]|e] in R; rewrite R;
      eexists; (split; [reflexivity|]); (split; [reflexivity|]);
      cbn; intuition discriminate.
  - intros -> -> K. destruct cam_id as [key|]; [|exact R].
    now rewrite K in R.
  - now intros -> ->.
Qed.

(** ** The allow-list and the registry are only read *)

Lemma keeps_ret {A} (a : A) : keeps_config (ret (C := C) a).
Proof. now intros w. Qed.

Lemma keeps_raise {A} (e : exn) : keeps_config (raise (C := C) (A := A) e).
Proof. now intros w. Qed.

Lemma keeps_gets {A} (f : World C -> A) : keeps_config (gets f).
Proof. now intros w. Qed.

Lemma keeps_log (lvl : level) (msg : string) :
  keeps_config (log (C := C) lvl msg).
Proof. now intros w. Qed.

Lemma keeps_bind {A B} (m : M C A) (k : A -> M C B) :
  keeps_config m -> (forall a, keeps_config (k a)) -> keeps_config (bind m k).
Proof.
  intros Hm Hk w. unfold bind. specialize (Hm w).
  destruct (m w) as [[a|e] w']; cbn [snd] in *; [|exact Hm].
  destruct (Hk a w') as [U R]. split; [now rewrite U | now rewrite R].
Qed.

Lemma keeps_try_except {A} (body : M C A) (handler : exn -> option (M C A)) :
  keeps_config body ->
  (forall e h, handler e = Some h -> keeps_config h) ->
  keeps_config (try_except body handler).
Proof.
  intros Hb Hh w. unfold try_except. specialize (Hb w).
  destruct (body w) as [[a|e] w']; cbn [snd] in *; [exact Hb|].
  destruct (handler e) as [h|] eqn:E; [|exact Hb].
  destruct (Hh e h E w') as [U R]. split; [now rewrite U | now rewrite R].
Qed.

Lemma keeps_telegram_call (e : event) :
  keeps_config (telegram_call (C := C) e).
Proof.
  intros w. unfold telegram_call. now destruct (transport (trace w) e).
Qed.

Lemma keeps_for_each {A} (xs : list A) (f : A -> M C unit) :
  (forall x, keeps_config (f x)) -> keeps_config (for_each xs f).
Proof.
  intros Hf. induction xs as [|x xs IH]; cbn [for_each].
  - apply keeps_ret.
  - apply keeps_bind; [apply Hf | intros _; exact IH].
Qed.

Lemma keeps_cam_take_snapshot (cam : nat) (resize : bool) :
  keeps_config (cam_take_snapshot cam resize).
Proof.
  intros w. unfold cam_take_snapshot.
  now destruct (take_snapshot resize (cams w cam)) as [[err|shot] c'].
Qed.

Lemma keeps_cam_motion_detection_switch (cam : nat) (enable : bool) :
  keeps_config (cam_motion_detection_switch cam enable).
Proof.
  intros w. unfold cam_motion_detection_switch.
  now destruct (motion_detection_switch enable (cams w cam)) as [[err|] c'].
Qed.

Lemma keeps_cam_instances_get (cam_id : option string) :
  keeps_config (cam_instances_get (C := C) cam_id).
Proof.
  intros w. unfold cam_instances_get. destruct cam_id as [key|]; [|easy].
  now destruct (registry_get (_cam_instances w) key).
Qed.

Lemma keeps_on_HomeCamError {A} (handler : string -> M C A) :
  (forall err, keeps_config (handler err)) ->
  forall e h, on_HomeCamError handler e = Some h -> keeps_config h.
Proof.
  intros H e h. destruct e; cbn; try discriminate. intros [= <-]. apply H.
Qed.

Create HintDb keeps.

#[local] Hint Resolve keeps_ret keeps_raise keeps_gets keeps_log
  keeps_telegram_call keeps_cam_take_snapshot
  keeps_cam_motion_detection_switch keeps_cam_instances_get : keeps.

(** Takes a computation apart down to the calls it is made of. *)
Ltac keeps :=
  repeat first
    [ progress auto with keeps
    | apply keeps_bind; [|intros ?]
    | apply keeps_for_each; intros ?
    | apply keeps_try_except; [|apply keeps_on_HomeCamError; intros ?]
    | match goal with
      | |- keeps_config (if ?b then _ else _) => destruct b
      | |- keeps_config (match ?x with _ => _ end) => destruct x
      | |- keeps_config (let (_, _) := ?x in _) => destruct x
      end ].

Lemma keeps_cmd_help update (append requested : bool)
  (cam_id : option string) :
  keeps_config (cmd_help (C := C) update append requested cam_id).
Proof. unfold cmd_help, reply_text. keeps. Qed.

Lemma keeps_send_cam_photo (photo : Photo) (update : option Update)
  (caption : option string) (reply : string)
  (full_snapshot_name : option string) (full_pic from_watchdog : bool) :
  keeps_config
    (send_cam_photo (C := C) photo update caption reply full_snapshot_name
       full_pic from_watchdog).
Proof.
  unfold send_cam_photo, reply_text, reply_document, reply_photo. keeps.
Qed.

#[local] Hint Resolve keeps_cmd_help keeps_send_cam_photo : keeps.

Lemma keeps_authorization_check (func : Update -> M C unit) update :
  keeps_config (func update) -> keeps_config (authorization_check func update).
Proof.
  intros H. unfold authorization_check. apply keeps_try_except.
  - keeps.
  - intros e h. destruct e; try discriminate. intros [= <-].
    unfold _print_access_error, reply_text. keeps.
Qed.

Lemma keeps_camera_selection (func : Update -> nat -> string -> M C unit)
  update :
  (forall cam cam_id, keeps_config (func update cam cam_id)) ->
  keeps_config (camera_selection func update).
Proof. intros H. unfold camera_selection. keeps. Qed.

Lemma keeps_cam_body (c : cam_command) update (cam : nat) (cam_id : string) :
  keeps_config (cam_body c update cam cam_id).
Proof.
  destruct c; cbn [cam_body];
    unfold cmd_getpic_body, cmd_getfullpic_body,
      cmd_motion_detection_off_body, cmd_motion_detection_on_body,
      motion_detection_body, _print_helper, reply_text;
    keeps.
Qed.

Lemma keeps_handler (c : command) update : keeps_config (handler c update).
Proof.
  destruct c; cbn [handler];
    unfold cmd_getpic, cmd_getfullpic, cmd_stop, cmd_list_cams,
      cmd_motion_detection_off, cmd_motion_detection_on;
    apply keeps_authorization_check.
  - apply keeps_camera_selection. intros. apply (keeps_cam_body CamGetpic).
  - apply keeps_camera_selection. intros. apply (keeps_cam_body CamGetfullpic).
  - unfold cmd_stop_body, reply_text. keeps. now intros w.
  - unfold cmd_list_cams_body, reply_html. keeps.
  - apply keeps_camera_selection. intros.
    apply (keeps_cam_body CamMotionDetectionOff).
  - apply keeps_camera_selection. intros.
    apply (keeps_cam_body CamMotionDetectionOn).
Qed.

Lemma keeps_run (op : operation) : keeps_config (run op).
Proof.
  destruct op; cbn [run].
  - apply keeps_handler.
  - apply keeps_cmd_help.
  - unfold error_handler. keeps.
  - unfold _print_helper. keeps.
  - unfold _print_access_error, reply_text. keeps.
  - apply keeps_send_cam_photo.
  - unfold send_startup_message. keeps.
Qed.

Lemma run_all_keeps_config (ops : list operation) w :
  _user_ids (run_all ops w) = _user_ids w /\
  _cam_instances (run_all ops w) = _cam_instances w.
Proof.
  revert w. induction ops as [|op ops IH]; intros w; [now split|].
  cbn [run_all]. destruct (IH (snd (run op w))) as [U R].
  destruct (keeps_run op w) as [U' R']. split; congruence.
Qed.

(** C8.  Every operation of the module (each command handler, the help
    handler, the error handler, the two private senders, the reply
    dispatcher in either mode and the startup broadcast), run from any
    world, leaves the allow-list and the registry of the bot as it found
    them, whether it returns or raises.  The constructor sets the two from
    its arguments, and after any sequence of operations on the constructed
    bot they are still those arguments. *)
Theorem config_is_read_only (me : string) (user_ids : list Z)
  (cam_instances : Registry) (store : nat -> C) (history : list event)
  (ops : list operation) (op : operation) w :
  let bot := CameraBot_init me user_ids cam_instances store history in
  _user_ids (snd (run op w)) = _user_ids w
  /\ _cam_instances (snd (run op w)) = _cam_instances w
  /\ _user_ids bot = user_ids
  /\ _cam_instances bot = cam_instances
  /\ _user_ids (run_all ops bot) = user_ids
  /\ _cam_instances (run_all ops bot) = cam_instances.
Proof.
  intros bot. destruct (keeps_run op w) as [U R].
  destruct (run_all_keeps_config ops bot) as [Ua Ra].
  repeat split; assumption.
Qed.

(** ** More on the extraction of the identifier *)

Lemma one_line_append (a b : string) :
  Text.one_line (a ++ b) = Text.one_line a && Text.one_line b.
Proof.
  induction a as [|c a IH]; cbn; [reflexivity|].
  now rewrite IH, andb_assoc.
Qed.

Lemma append_same_length (q r r' : string) :
  r = q ++ r' -> (String.length r <= String.length r')%nat -> q = EmptyString.
Proof.
  intros -> L. rewrite length_append in L.
  destruct q; [reflexivity | cbn in L; lia].
Qed.

(** What the pattern leaves is left whole by the pattern. *)
Lemma match_cam_fixed (t r : string) :
  Regex.match_cam t = Some r -> Regex.match_cam r = Some r.
Proof.
  intros M. destruct (match_cam_sound _ _ M) as (pre & E & L & P).
  destruct (Regex.match_cam r) as [r'|] eqn:M'.
  - destruct (match_cam_sound _ _ M') as (q & E' & L' & P').
    assert (Hlen : (String.length r <= String.length r')%nat).
    { apply (match_cam_last t r M (pre ++ q) r').
      - rewrite E, E' at 1. now rewrite append_assoc.
      - now rewrite one_line_append, L, L'.
      - exact P'. }
    rewrite (append_same_length q r r' E' Hlen) in E'. cbn in E'.
    now subst r'.
  - now rewrite (match_cam_none r M' EmptyString r eq_refl eq_refl) in P.
Qed.

(** The identifier is a suffix of the text; it starts with [cam_] or is the
    whole text; and extracting from the identifier gives the identifier
    again. *)
Theorem extract_cam_id_shape (text : string) :
  (exists pre, text = pre ++ extract_cam_id text)
  /\ (String.prefix "cam_" (extract_cam_id text) = true
      \/ extract_cam_id text = text)
  /\ extract_cam_id (extract_cam_id text) = extract_cam_id text.
Proof.
  rewrite !extract_cam_id_match.
  destruct (Regex.match_cam text) as [r|] eqn:M.
  - destruct (match_cam_sound _ _ M) as (pre & E & L & P).
    split; [now exists pre|]. split; [now left|].
    now rewrite (match_cam_fixed _ _ M).
  - split; [now exists EmptyString|]. split; [now right|].
    now rewrite M.
Qed.

(** An identifier made of [cam_] and a name without [cam_] is left whole. *)
Lemma match_cam_plain_key (name : string) :
  Text.contains "cam_" name = false ->
  Regex.match_cam ("cam_" ++ name) = Some ("cam_" ++ name).
Proof.
  intros N. pose proof (match_cam_no_marker name N) as M.
  cbn [append]. rewrite !match_cam_cons, M. cbn.
  destruct name; reflexivity.
Qed.

(** A command text made of a verb without line feed and a registry key of
    the form [cam_] + name, the name without [cam_]: the resolver recovers
    the key, and runs the body on the camera registered under it. *)
Theorem command_text_resolves_to_its_key
  (func : Update -> nat -> string -> M C unit) (sender : Chat)
  (verb name : string) (data : CamData) w :
  Text.one_line verb = true ->
  Text.contains "cam_" name = false ->
  registry_get (_cam_instances w) ("cam_" ++ name) = Some data ->
  extract_cam_id (verb ++ "cam_" ++ name) = "cam_" ++ name
  /\ camera_selection func (inbound sender (verb ++ "cam_" ++ name)) w
     = func (inbound sender (verb ++ "cam_" ++ name)) (instance data)
         ("cam_" ++ name) w.
Proof.
  intros L N G.
  assert (E : extract_cam_id (verb ++ "cam_" ++ name) = "cam_" ++ name).
  { rewrite extract_cam_id_match.
    now rewrite (match_cam_after_verb verb ("cam_" ++ name) L
                   (match_cam_plain_key name N)). }
  split; [exact E|].
  rewrite camera_selection_run. cbn zeta. cbn [inbound message text].
  now rewrite E, G.
Qed.

(** ** More on the authorization gate *)

Lemma authorization_check_allowed_cases (func : Update -> M C unit)
  update w :
  user_id_in (id (chat (message update))) (_user_ids w) = true ->
  authorization_check func update w
  = match func update w with
    | (Raise UserAuthError, w') =>
        (delivery (trace w' ++ [Log ERROR "User authorization error";
                                Log ERROR (_get_user_info update)])
           (ReplyText (id (chat (message update))) "Not authorized"),
         emit (refusal update) w')
    | other => other
    end.
Proof.
  intros A. unfold authorization_check, try_except at 1, bind at 1, gets.
  rewrite A. cbn [negb].
  destruct (func update w) as [[a|e] w']; [reflexivity|].
  destruct e; try reflexivity.
  unfold _print_access_error, reply_text. open_run. now tidy.
Qed.

(** For a sender on the allow-list the gate adds nothing to what the wrapped
    handler does and returns, with one exception: a handler that itself ends
    with [UserAuthError] is answered like a sender who is not on the list,
    after whatever the handler did. *)
Theorem gate_is_transparent_when_allowed (func : Update -> M C unit)
  update w :
  user_id_in (id (chat (message update))) (_user_ids w) = true ->
  ((forall w', func update w <> (Raise UserAuthError, w')) ->
   authorization_check func update w = func update w)
  /\ (forall w', func update w = (Raise UserAuthError, w') ->
                 authorization_check func update w
                 = (delivery
                      (trace w' ++ [Log ERROR "User authorization error";
                                    Log ERROR (_get_user_info update)])
                      (ReplyText (id (chat (message update)))
                         "Not authorized"),
                    emit [ Log ERROR "User authorization error";
                           Log ERROR (_get_user_info update);
                           ReplyText (id (chat (message update)))
                             "Not authorized" ] w')).
Proof.
  intros A. rewrite (authorization_check_allowed_cases func update w A).
  split.
  - intros N. destruct (func update w) as [[a|e] w'']; [reflexivity|].
    destruct e; try reflexivity. now destruct (N w'').
  - intros w' H. now rewrite H.
Qed.

(** ** The errors a handler can end with *)

Lemma ro_ret {A} P E (a : A) : raises_only P E (ret (C := C) a).
Proof. intros w _ e. discriminate. Qed.

Lemma ro_gets {A} P E (f : World C -> A) : raises_only P E (gets f).
Proof. intros w _ e. discriminate. Qed.

Lemma ro_log P E (lvl : level) (msg : string) :
  raises_only P E (log (C := C) lvl msg).
Proof. intros w _ e. discriminate. Qed.

Lemma ro_start_thread P E :
  raises_only P E (start_stop_polling_thread (C := C)).
Proof. intros w _ e. discriminate. Qed.

Lemma ro_raise {A} P (E : exn -> Prop) (e : exn) :
  E e -> raises_only P E (raise (C := C) (A := A) e).
Proof. intros He w _ e' [= <-]. exact He. Qed.

Lemma ro_telegram_call P (E : exn -> Prop) (ev : event) :
  (forall msg, E (TelegramError msg)) ->
  raises_only P E (telegram_call (C := C) ev).
Proof.
  intros He w _ e. rewrite telegram_call_run. cbn [fst]. unfold delivery.
  destruct (transport _ _) as [msg|]; [|discriminate].
  intros [= <-]. apply He.
Qed.

Lemma ro_cam_take_snapshot P (E : exn -> Prop) (cam : nat) (resize : bool) :
  (forall msg, E (HomeCamError msg)) ->
  raises_only P E (cam_take_snapshot cam resize).
Proof.
  intros He w _ e. unfold cam_take_snapshot.
  destruct (take_snapshot resize (cams w cam)) as [[err|shot] c'];
    cbn [fst]; [|discriminate].
  intros [= <-]. apply He.
Qed.

Lemma ro_cam_motion_detection_switch P (E : exn -> Prop) (cam : nat)
  (enable : bool) :
  (forall msg, E (HomeCamError msg)) ->
  raises_only P E (cam_motion_detection_switch cam enable).
Proof.
  intros He w _ e. unfold cam_motion_detection_switch.
  destruct (motion_detection_switch enable (cams w cam)) as [[err|] c'];
    cbn [fst]; [|discriminate].
  intros [= <-]. apply He.
Qed.

(** The lookup of a key the registry holds does not raise. *)
Lemma ro_cam_instances_get E (key : string) :
  raises_only (fun registry => registry_get registry key <> None) E
    (cam_instances_get (C := C) (Some key)).
Proof.
  intros w Hk e. unfold cam_instances_get.
  destruct (registry_get (_cam_instances w) key); [discriminate|].
  now destruct Hk.
Qed.

Lemma ro_bind {A B} P E (m : M C A) (k : A -> M C B) :
  raises_only P E m -> keeps_config m ->
  (forall a, raises_only P E (k a)) ->
  raises_only P E (bind m k).
Proof.
  intros Hm Km Hk w Hp e. unfold bind.
  specialize (Hm w Hp). destruct (Km w) as [_ R].
  destruct (m w) as [[a|e'] w']; cbn [fst snd] in *.
  - apply (Hk a w'). now rewrite R.
  - intros [= <-]. now apply Hm.
Qed.

Lemma ro_try_except {A} P (E E' : exn -> Prop) (body : M C A)
  (handler : exn -> option (M C A)) :
  raises_only P E' body -> keeps_config body ->
  (forall e, E' e ->
             match handler e with
             | Some h => raises_only P E h
             | None => E e
             end) ->
  raises_only P E (try_except body handler).
Proof.
  intros Hb Kb Hh w Hp e. unfold try_except.
  specialize (Hb w Hp). destruct (Kb w) as [_ R].
  destruct (body w) as [[a|e'] w']; cbn [fst snd] in *; [discriminate|].
  specialize (Hh e' (Hb e' eq_refl)).
  destruct (handler e') as [h|].
  - apply (Hh w'). now rewrite R.
  - now intros [= <-].
Qed.

Lemma ro_for_each {A} P E (xs : list A) (f : A -> M C unit) :
  (forall x, raises_only P E (f x)) -> (forall x, keeps_config (f x)) ->
  raises_only P E (for_each xs f).
Proof.
  intros Hf Kf. induction xs as [|x xs IH]; cbn [for_each].
  - apply ro_ret.
  - apply ro_bind; [apply Hf | apply Kf | intros _; exact IH].
Qed.

(** [try: ... except HomeCamError as err: handler(err)] around a body that
    raises camera errors and errors of [E]. *)
Lemma ro_try_HomeCamError {A} P (E : exn -> Prop) (body : M C A)
  (handler : string -> M C A) :
  raises_only P (fun e => E e \/ exists msg, e = HomeCamError msg) body ->
  keeps_config body ->
  (forall err, raises_only P E (handler err)) ->
  raises_only P E (try_except body (on_HomeCamError handler)).
Proof.
  intros Hb Kb Hh. apply (ro_try_except P E _ body _ Hb Kb).
  intros e [He|[msg ->]]; cbn.
  - destruct e; try exact He. apply Hh.
  - apply Hh.
Qed.

Lemma telegram_or_camera (msg : string) :
  is_TelegramError (TelegramError msg) \/
  (exists m, TelegramError msg = HomeCamError m).
Proof. left. now exists msg. Qed.

Lemma camera_or_telegram (msg : string) :
  is_TelegramError (HomeCamError msg) \/
  (exists m, HomeCamError msg = HomeCamError m).
Proof. right. now exists msg. Qed.

Lemma is_TelegramError_intro (msg : string) :
  is_TelegramError (TelegramError msg).
Proof. now exists msg. Qed.

Create HintDb ro.

#[local] Hint Resolve ro_ret ro_gets ro_log ro_start_thread
  ro_cam_instances_get : ro.
#[local] Hint Resolve telegram_or_camera camera_or_telegram
  is_TelegramError_intro : ro.

(** Takes a computation apart like [keeps], for [raises_only]. *)
Ltac ro :=
  repeat first
    [ progress auto with ro
    | progress cbn beta
    | apply ro_telegram_call; intros ?
    | apply ro_cam_take_snapshot; intros ?
    | apply ro_cam_motion_detection_switch; intros ?
    | apply ro_bind; [| solve [keeps] | intros ?]
    | apply ro_try_HomeCamError; [| solve [keeps] | intros ?]
    | match goal with
      | |- raises_only _ _ (if ?b then _ else _) => destruct b
      | |- raises_only _ _ (match ?x with _ => _ end) => destruct x
      end ].

Lemma keeps_print_helper update (cam_id : string) :
  keeps_config (_print_helper (C := C) update cam_id).
Proof. apply keeps_cmd_help. Qed.

#[local] Hint Resolve keeps_print_helper : keeps.

Lemma ro_print_helper E update (cam_id : string) :
  (forall msg, E (TelegramError msg)) ->
  raises_only (fun registry => registry_get registry cam_id <> None) E
    (_print_helper (C := C) update cam_id).
Proof.
  intros He. unfold _print_helper, cmd_help, reply_text. cbn iota.
  apply ro_bind; [| solve [keeps] | intros ?; apply ro_log].
  apply ro_bind; [apply ro_cam_instances_get | solve [keeps] | intros data].
  now apply ro_telegram_call.
Qed.

(** With the identifier in the registry, the body of a camera-scoped command
    ends with no other error than the chat library's. *)
Lemma ro_cam_body (c : cam_command) update (cam : nat) (cam_id : string) :
  raises_only (fun registry => registry_get registry cam_id <> None)
    is_TelegramError (cam_body c update cam cam_id).
Proof.
  assert (H : raises_only
                (fun registry => registry_get registry cam_id <> None)
                is_TelegramError (_print_helper (C := C) update cam_id)).
  { apply ro_print_helper. apply is_TelegramError_intro. }
  assert (H' : raises_only
                 (fun registry => registry_get registry cam_id <> None)
                 (fun e => is_TelegramError e
                           \/ exists msg, e = HomeCamError msg)
                 (_print_helper (C := C) update cam_id)).
  { apply ro_print_helper. apply telegram_or_camera. }
  destruct c; cbn [cam_body];
    unfold cmd_getpic_body, cmd_getfullpic_body,
      cmd_motion_detection_off_body, cmd_motion_detection_on_body,
      motion_detection_body, send_cam_photo, reply_text, reply_photo,
      reply_document;
    ro.
Qed.

(** Through the gate, for an allow-listed sender: the errors of the handler,
    when [UserAuthError] is not one of them. *)
Lemma authorization_check_allowed_errors (E : exn -> Prop)
  (func : Update -> M C unit) update w :
  user_id_in (id (chat (message update))) (_user_ids w) = true ->
  (forall e, fst (func update w) = Raise e -> E e) ->
  ~ E UserAuthError ->
  forall e, fst (authorization_check func update w) = Raise e -> E e.
Proof.
  intros A H N e. rewrite (authorization_check_allowed_cases func update w A).
  destruct (func update w) as [[a|e'] w'] eqn:F; cbn [fst] in *;
    [discriminate|].
  pose proof (H e' eq_refl) as He.
  destruct e'; cbn [fst]; try (intros [= <-]; exact He).
  now destruct N.
Qed.

(** A command handler ends with no other error than the chat library's own,
    except for a camera-scoped command of an allow-listed sender whose
    identifier the registry does not hold, which ends with [KeyError] on
    that identifier.  In particular no handler ends with the camera error,
    with the authorization error or with an error of its own making. *)
Theorem handler_errors (c : command) update w (e : exn) :
  fst (handler c update w) = Raise e ->
  is_TelegramError e
  \/ (as_cam_command c <> None
      /\ user_id_in (id (chat (message update))) (_user_ids w) = true
      /\ registry_get (_cam_instances w)
           (extract_cam_id (text (message update))) = None
      /\ e = KeyError (Some (extract_cam_id (text (message update))))).
Proof.
  destruct (user_id_in (id (chat (message update))) (_user_ids w)) eqn:A.
  - set (cam_id := extract_cam_id (text (message update))).
    set (E := fun e : exn =>
                is_TelegramError e
                \/ (as_cam_command c <> None /\ true = true
                    /\ registry_get (_cam_instances w) cam_id = None
                    /\ e = KeyError (Some cam_id))).
    assert (N : ~ E UserAuthError).
    { intros [[msg H]|(_ & _ & _ & H)]; discriminate. }
    assert (S : forall cc, as_cam_command c = Some cc ->
                forall e, fst (camera_selection (cam_body cc) update w)
                          = Raise e -> E e).
    { intros cc Hc e'. rewrite camera_selection_run. cbn zeta. fold cam_id.
      destruct (registry_get (_cam_instances w) cam_id) as [data|] eqn:G.
      - intros H. left.
        apply (ro_cam_body cc update (instance data) cam_id w); [|exact H].
        cbn beta. now rewrite G.
      - cbn [fst]. intros [= <-]. right. repeat split; congruence. }
    assert (T : forall func : Update -> M C unit,
                raises_only (fun _ => True) is_TelegramError (func update) ->
                forall e, fst (func update w) = Raise e -> E e).
    { intros func H e' He. left. now apply (H w I). }
    revert e. change (forall e, fst (handler c update w) = Raise e -> E e).
    destruct c; cbn [handler];
      unfold cmd_getpic, cmd_getfullpic, cmd_stop, cmd_list_cams,
        cmd_motion_detection_off, cmd_motion_detection_on;
      apply authorization_check_allowed_errors; try assumption.
    + now apply (S CamGetpic).
    + now apply (S CamGetfullpic).
    + apply T. unfold cmd_stop_body, reply_text. ro.
    + apply T. unfold cmd_list_cams_body, reply_html. ro.
    + now apply (S CamMotionDetectionOff).
    + now apply (S CamMotionDetectionOn).
  - intros H. left. revert H. destruct c; cbn [handler];
      unfold cmd_getpic, cmd_getfullpic, cmd_stop, cmd_list_cams,
        cmd_motion_detection_off, cmd_motion_detection_on;
      rewrite (authorization_check_denied _ update w A); cbn [fst];
      unfold delivery; (destruct (transport _ _) as [msg|]; [|discriminate]);
      intros [= <-]; now exists msg.
Qed.

(** ** The cameras a run changes *)

Lemma to_ret {A} R (a : A) : touches_only R (ret (C := C) a).
Proof. now intros w cam _. Qed.

Lemma to_raise {A} R (e : exn) : touches_only R (raise (C := C) (A := A) e).
Proof. now intros w cam _. Qed.

Lemma to_gets {A} R (f : World C -> A) : touches_only R (gets f).
Proof. now intros w cam _. Qed.

Lemma to_log R (lvl : level) (msg : string) :
  touches_only R (log (C := C) lvl msg).
Proof. now intros w cam _. Qed.

Lemma to_start_thread R : touches_only R (start_stop_polling_thread (C := C)).
Proof. now intros w cam _. Qed.

Lemma to_telegram_call R (e : event) :
  touches_only R (telegram_call (C := C) e).
Proof.
  intros w cam _. unfold telegram_call. now destruct (transport (trace w) e).
Qed.

Lemma to_cam_instances_get R (cam_id : option string) :
  touches_only R (cam_instances_get (C := C) cam_id).
Proof.
  intros w cam _. unfold cam_instances_get. destruct cam_id as [key|]; [|easy].
  now destruct (registry_get (_cam_instances w) key).
Qed.

Lemma to_cam_take_snapshot (R : nat -> Prop) (ref : nat) (resize : bool) :
  R ref -> touches_only R (cam_take_snapshot ref resize).
Proof.
  intros Hr w cam N. unfold cam_take_snapshot.
  assert (D : Nat.eqb cam ref = false).
  { apply Nat.eqb_neq. intros ->. now destruct N. }
  destruct (take_snapshot resize (cams w ref)) as [[err|shot] c'];
    cbn; now rewrite D.
Qed.

Lemma to_cam_motion_detection_switch (R : nat -> Prop) (ref : nat)
  (enable : bool) :
  R ref -> touches_only R (cam_motion_detection_switch ref enable).
Proof.
  intros Hr w cam N. unfold cam_motion_detection_switch.
  assert (D : Nat.eqb cam ref = false).
  { apply Nat.eqb_neq. intros ->. now destruct N. }
  destruct (motion_detection_switch enable (cams w ref)) as [[err|] c'];
    cbn; now rewrite D.
Qed.

Lemma to_bind {A B} R (m : M C A) (k : A -> M C B) :
  touches_only R m -> (forall a, touches_only R (k a)) ->
  touches_only R (bind m k).
Proof.
  intros Hm Hk w cam N. unfold bind. specialize (Hm w cam N).
  destruct (m w) as [[a|e] w']; cbn [snd] in *; [|exact Hm].
  now rewrite (Hk a w' cam N).
Qed.

Lemma to_try_except {A} R (body : M C A) (handler : exn -> option (M C A)) :
  touches_only R body ->
  (forall e h, handler e = Some h -> touches_only R h) ->
  touches_only R (try_except body handler).
Proof.
  intros Hb Hh w cam N. unfold try_except. specialize (Hb w cam N).
  destruct (body w) as [[a|e] w']; cbn [snd] in *; [exact Hb|].
  destruct (handler e) as [h|] eqn:E; [|exact Hb].
  now rewrite (Hh e h E w' cam N).
Qed.

Lemma to_for_each {A} R (xs : list A) (f : A -> M C unit) :
  (forall x, touches_only R (f x)) -> touches_only R (for_each xs f).
Proof.
  intros Hf. induction xs as [|x xs IH]; cbn [for_each].
  - apply to_ret.
  - apply to_bind; [apply Hf | intros _; exact IH].
Qed.

Lemma to_on_HomeCamError {A} R (handler : string -> M C A) :
  (forall err, touches_only R (handler err)) ->
  forall e h, on_HomeCamError handler e = Some h -> touches_only R h.
Proof.
  intros H e h. destruct e; cbn; try discriminate. intros [= <-]. apply H.
Qed.

Create HintDb touches.

#[local] Hint Resolve to_ret to_raise to_gets to_log to_start_thread
  to_telegram_call to_cam_instances_get to_cam_take_snapshot
  to_cam_motion_detection_switch : touches.

Ltac touches :=
  repeat first
    [ progress auto with touches
    | apply to_bind; [|intros ?]
    | apply to_for_each; intros ?
    | apply to_try_except; [|apply to_on_HomeCamError; intros ?]
    | match goal with
      | |- touches_only _ (if ?b then _ else _) => destruct b
      | |- touches_only _ (match ?x with _ => _ end) => destruct x
      end ].

Lemma to_cmd_help R update (append requested : bool)
  (cam_id : option string) :
  touches_only R (cmd_help (C := C) update append requested cam_id).
Proof. unfold cmd_help, reply_text. touches. Qed.

Lemma to_send_cam_photo R (photo : Photo) (update : option Update)
  (caption : option string) (reply : string)
  (full_snapshot_name : option string) (full_pic from_watchdog : bool) :
  touches_only R
    (send_cam_photo (C := C) photo update caption reply full_snapshot_name
       full_pic from_watchdog).
Proof.
  unfold send_cam_photo, reply_text, reply_document, reply_photo. touches.
Qed.

Lemma to_print_helper R update (cam_id : string) :
  touches_only R (_print_helper (C := C) update cam_id).
Proof. apply to_cmd_help. Qed.

#[local] Hint Resolve to_cmd_help to_send_cam_photo to_print_helper : touches.

Lemma to_authorization_check R (func : Update -> M C unit) update :
  touches_only R (func update) ->
  touches_only R (authorization_check func update).
Proof.
  intros H. unfold authorization_check. apply to_try_except.
  - touches.
  - intros e h. destruct e; try discriminate. intros [= <-].
    unfold _print_access_error, reply_text. touches.
Qed.

(** The body of a camera-scoped command changes the camera it is given and
    no other. *)
Lemma to_cam_body (c : cam_command) update (ref : nat) (cam_id : string) :
  touches_only (fun cam => cam = ref) (cam_body c update ref cam_id).
Proof.
  destruct c; cbn [cam_body];
    unfold cmd_getpic_body, cmd_getfullpic_body,
      cmd_motion_detection_off_body, cmd_motion_detection_on_body,
      motion_detection_body, reply_text;
    touches.
Qed.

(** A camera-scoped command changes at most one camera: the one the
    registry holds for the identifier in the text.  Every other camera is
    after the run as it was before, whoever the sender is and whatever the
    camera and the chat library do. *)
Theorem cam_handler_changes_only_its_camera (c : cam_command) update w
  (cam : nat) :
  (forall data,
     registry_get (_cam_instances w) (extract_cam_id (text (message update)))
     = Some data -> instance data <> cam) ->
  cams (snd (cam_handler c update w)) cam = cams w cam.
Proof.
  intros H. unfold cam_handler.
  assert (S : cams (snd (camera_selection (cam_body c) update w)) cam
              = cams w cam).
  { rewrite camera_selection_run. cbn zeta.
    destruct (registry_get (_cam_instances w) _) as [data|] eqn:G;
      [|reflexivity].
    apply (to_cam_body c update (instance data) _ w cam).
    intros ->. now apply (H data). }
  destruct (user_id_in (id (chat (message update))) (_user_ids w)) eqn:A.
  - rewrite (authorization_check_allowed_cases _ update w A).
    destruct (camera_selection (cam_body c) update w) as [[a|e] w'];
      [exact S|].
    destruct e; exact S.
  - now rewrite (authorization_check_denied _ update w A).
Qed.

(** The operations that are not camera-scoped commands (stop, list, help,
    the error handler, the private senders, the reply dispatcher and the
    startup broadcast) change no camera. *)
Theorem other_operations_change_no_camera (op : operation) w (cam : nat) :
  (forall c update, op = OpCommand c update -> as_cam_command c = None) ->
  cams (snd (run op w)) cam = cams w cam.
Proof.
  intros H.
  assert (F : forall m : M C unit,
              touches_only (fun _ => False) m ->
              cams (snd (m w)) cam = cams w cam).
  { intros m Hm. apply Hm. tauto. }
  destruct op as [c update| | | | | |]; cbn [run].
  - specialize (H c update eq_refl).
    destruct c; try discriminate; cbn [handler];
      unfold cmd_stop, cmd_list_cams; apply F, to_authorization_check.
    + unfold cmd_stop_body, reply_text. touches.
    + unfold cmd_list_cams_body, reply_html. touches.
  - apply F. touches.
  - apply F. unfold error_handler. touches.
  - apply F. touches.
  - apply F. unfold _print_access_error, reply_text. touches.
  - apply F. touches.
  - apply F. unfold send_startup_message. touches.
Qed.

(** ** The other camera-scoped commands when the camera answers *)

Lemma allowed_selected (body : Update -> nat -> string -> M C unit)
  update w (data : CamData) :
  user_id_in (id (chat (message update))) (_user_ids w) = true ->
  registry_get (_cam_instances w) (extract_cam_id (text (message update)))
  = Some data ->
  (forall w', body update (instance data)
                (extract_cam_id (text (message update))) w
              <> (Raise UserAuthError, w')) ->
  authorization_check (camera_selection body) update w
  = body update (instance data) (extract_cam_id (text (message update))) w.
Proof.
  intros A G N.
  assert (S : camera_selection body update w
              = body update (instance data)
                  (extract_cam_id (text (message update))) w).
  { rewrite camera_selection_run. cbn zeta. now rewrite G. }
  rewrite authorization_check_allowed; [exact S | exact A |].
  intros w'. rewrite S. apply N.
Qed.

(** The full snapshot of an allow-listed sender, from a camera that answers,
    over a chat library that takes every call: the run returns normally and
    its replies are, in order, the acknowledgment text, the snapshot as a
    document (not as a photo) named [Full_snapshot_] + the snapshot time with
    underscores + [.jpg] and captioned with the time and the counter the
    camera shows after the snapshot, and the help footer.  The camera is
    asked once, for an unresized snapshot. *)
Theorem getfullpic_sends_document_then_footer update w (data : CamData)
  (photo : Photo) (ts : Z) (cam' : C) :
  user_id_in (id (chat (message update))) (_user_ids w) = true ->
  registry_get (_cam_instances w) (extract_cam_id (text (message update)))
  = Some data ->
  take_snapshot false (cams w (instance data)) = (inr (photo, ts), cam') ->
  (forall history e, transport history e = None) ->
  let chat_id := id (chat (message update)) in
  let filename :=
    "Full_snapshot_" ++ strftime "%a_%b_%-d_%H.%M.%S_%Y" ts ++ ".jpg" in
  let caption :=
    "Full pic taken on " ++ strftime "%a %b %-d %H:%M:%S %Y" ts
    ++ " (pic #" ++ Text.str_Z (snapshots_taken cam') ++ ")" in
  let footer :=
    "Available commands" ++ NL
    ++ Text.join NL (map (fun cmd => "/" ++ cmd) (commands data))
    ++ " or /list available cameras" in
  exists calls,
    cmd_getfullpic update w
    = (Ret tt, set_cam (instance data) cam' (emit calls w))
    /\ filter is_reply calls
       = [ ReplyText chat_id
             ("Sending full pic from " ++ description cam' ++ "...");
           ReplyDocument chat_id photo (Some filename) (Some caption);
           ReplyText chat_id footer ]
    /\ filter is_camera_call calls = [TakeSnapshot (instance data) false].
Proof.
  intros A G T D chat_id filename caption footer.
  assert (Dv : forall history e, delivery history e = Ret tt).
  { intros h e. unfold delivery. now rewrite D. }
  assert (B : exists calls,
             cmd_getfullpic_body update (instance data)
               (extract_cam_id (text (message update))) w
             = (Ret tt, set_cam (instance data) cam' (emit calls w))
             /\ filter is_reply calls
                = [ ReplyText chat_id
                      ("Sending full pic from " ++ description cam' ++ "...");
                    ReplyDocument chat_id photo (Some filename) (Some caption);
                    ReplyText chat_id footer ]
             /\ filter is_camera_call calls
                = [TakeSnapshot (instance data) false]).
  { unfold cmd_getfullpic_body, cam_take_snapshot, on_HomeCamError.
    open_run. tidy. rewrite T. tidy. rewrite Nat.eqb_refl.
    unfold send_cam_photo, reply_text, reply_document. open_run. tidy.
    rewrite !Dv. tidy.
    unfold _print_helper. rewrite cmd_help_run. cbn zeta. tidy.
    rewrite G, Dv. tidy.
    eexists. split; [reflexivity|]. split; reflexivity. }
  destruct B as (calls & B & R & K). exists calls.
  split; [|split; assumption].
  unfold cmd_getfullpic. rewrite (allowed_selected _ update w data A G).
  - exact B.
  - intros w'. rewrite B. discriminate.
Qed.

(** Motion detection switched by an allow-listed sender, on a camera that
    answers, over a chat library that takes every call: the camera's switch
    is called once with the flag of the command (off: false, on: true), and
    the replies are the fixed confirmation and then the help footer. *)
Theorem motion_detection_confirms_then_footer (on : bool) update w
  (data : CamData) (cam' : C) :
  user_id_in (id (chat (message update))) (_user_ids w) = true ->
  registry_get (_cam_instances w) (extract_cam_id (text (message update)))
  = Some data ->
  motion_detection_switch on (cams w (instance data)) = (None, cam') ->
  (forall history e, transport history e = None) ->
  let chat_id := id (chat (message update)) in
  let footer :=
    "Available commands" ++ NL
    ++ Text.join NL (map (fun cmd => "/" ++ cmd) (commands data))
    ++ " or /list available cameras" in
  exists calls,
    (if on then cmd_motion_detection_on else cmd_motion_detection_off)
      update w
    = (Ret tt, set_cam (instance data) cam' (emit calls w))
    /\ filter is_reply calls
       = [ ReplyText chat_id
             (if on then "Motion Detection successfully enabled."
              else "Motion Detection successfully disabled.");
           ReplyText chat_id footer ]
    /\ filter is_camera_call calls
       = [MotionDetectionSwitch (instance data) on].
Proof.
  intros A G T D chat_id footer.
  assert (Dv : forall history e, delivery history e = Ret tt).
  { intros h e. unfold delivery. now rewrite D. }
  assert (B : forall requested done,
             exists calls,
               motion_detection_body on requested done update (instance data)
                 (extract_cam_id (text (message update))) w
               = (Ret tt, set_cam (instance data) cam' (emit calls w))
               /\ filter is_reply calls
                  = [ReplyText chat_id done; ReplyText chat_id footer]
               /\ filter is_camera_call calls
                  = [MotionDetectionSwitch (instance data) on]).
  { intros requested done.
    unfold motion_detection_body, cam_motion_detection_switch,
      on_HomeCamError, reply_text.
    open_run. tidy. rewrite T. tidy. rewrite Dv. tidy.
    unfold _print_helper. rewrite cmd_help_run. cbn zeta. tidy.
    rewrite G, Dv. tidy.
    eexists. split; [reflexivity|]. split; reflexivity. }
  destruct on.
  - destruct (B "Enabling camera's Motion Detection has been requested"
                "Motion Detection successfully enabled.")
      as (calls & R & F & K).
    exists calls. split; [|split; assumption].
    unfold cmd_motion_detection_on.
    rewrite (allowed_selected _ update w data A G); [exact R|].
    intros w'. unfold cmd_motion_detection_on_body. rewrite R. discriminate.
  - destruct (B "Disabling camera's Motion Detection has been requested"
                "Motion Detection successfully disabled.")
      as (calls & R & F & K).
    exists calls. split; [|split; assumption].
    unfold cmd_motion_detection_off.
    rewrite (allowed_selected _ update w data A G); [exact R|].
    intros w'. unfold cmd_motion_detection_off_body. rewrite R. discriminate.
Qed.

(** ** A snapshot over a chat library that may refuse *)


(** ** Stopping the bot *)


(** ** Sending to every user of the allow-list *)





(** ** Help is not behind the gate *)

(** [cmd_help] is the one command handler without the authorization
    decorator: what it returns and the calls it makes are the same whatever
    the allow-list holds, and with [requested] set every sender, on the
    allow-list or not, is answered with the pointer to [/list]. *)
Theorem help_is_not_gated update (append requested : bool)
  (cam_id : option string) (ids : list Z) w :
  fst (cmd_help update append requested cam_id (with_user_ids ids w))
  = fst (cmd_help update append requested cam_id w)
  /\ trace (snd (cmd_help update append requested cam_id
                   (with_user_ids ids w)))
     = trace (snd (cmd_help update append requested cam_id w))
  /\ (requested = true ->
      In (ReplyText (id (chat (message update)))
            "Use /list command to list available cameras and commands")
         (trace (snd (cmd_help update append requested cam_id w)))).
Proof.
  rewrite !cmd_help_run. cbn zeta.
  cbn [with_user_ids trace _cam_instances].
  split; [|split].
  - destruct requested; [now destruct (delivery _ _)|].
    destruct append; [|reflexivity].
    destruct cam_id as [key|]; [|reflexivity].
    destruct (registry_get _ key); [|reflexivity].
    now destruct (delivery _ _).
  - destruct requested; [now destruct (delivery _ _)|].
    destruct append; [|reflexivity].
    destruct cam_id as [key|]; [|reflexivity].
    destruct (registry_get _ key); [|reflexivity].
    now destruct (delivery _ _).
  - intros ->. destruct (delivery _ _); cbn [snd trace emit];
      apply in_or_app; right; cbn; tauto.
Qed.

End Facts.

(** ** The theorems at work on the test bot *)

(** A sender who is not on the allow-list asks for a picture. *)
Lemma unauthorized_is_refused_witness :
  user_id_in 7 (_user_ids (test_world 0 false)) = false /\
  @handler TestCam test_cam_ops reliable test_runtime Getpic
    (inbound user7 "/getpic_cam_1") (test_world 0 false)
  = (Ret tt,
     emit [ Log ERROR "User authorization error";
            Log ERROR "Request from user_id: 7, username: None, first_name: Mallory, last_name: None";
            ReplyText 7 "Not authorized" ]
       (test_world 0 false)).
Proof.
  split; [reflexivity|].
  exact (proj1 (proj2
    (@unauthorized_is_refused TestCam test_cam_ops reliable test_runtime
       (fun _ => ret tt) Getpic (inbound user7 "/getpic_cam_1")
       (test_world 0 false) eq_refl))).
Defined.

(** The same refusal whatever the registry holds and whatever the text
    names. *)
Lemma unauthorized_outcome_independent_witness :
  let run1 :=
    @cam_handler TestCam test_cam_ops reliable test_runtime CamGetpic
      (inbound user7 "/getpic_cam_1") (test_world 0 false) in
  let run2 :=
    @cam_handler TestCam test_cam_ops reliable test_runtime CamGetpic
      (inbound user7 "/getpic_cam_9") bare_world in
  fst run1 = fst run2 /\ trace (snd run1) = trace (snd run2).
Proof.
  destruct (@unauthorized_outcome_independent TestCam test_cam_ops reliable
              test_runtime CamGetpic user7 "/getpic_cam_1" "/getpic_cam_9"
              (test_world 0 false) bare_world eq_refl eq_refl eq_refl)
    as (R & T & _).
  split; [exact R | exact T].
Defined.

(** An allow-listed sender names a camera the registry does not hold. *)
Lemma unknown_camera_is_not_handled_witness :
  @cam_handler TestCam test_cam_ops reliable test_runtime CamGetpic
    (inbound user42 "/getpic_cam_9") (test_world 0 false)
  = (Raise (KeyError (Some "cam_9")), test_world 0 false)
  /\ @process_update TestCam test_runtime
       (@cam_handler TestCam test_cam_ops reliable test_runtime CamGetpic)
       (inbound user42 "/getpic_cam_9") (test_world 0 false)
     = (Ret tt, emit [Log ERROR "Got error: 'cam_9'"] (test_world 0 false)).
Proof.
  destruct (proj1
    (@unknown_camera_is_not_handled TestCam test_cam_ops reliable
       test_runtime CamGetpic (inbound user42 "/getpic_cam_9")
       (test_world 0 false)) eq_refl eq_refl) as (H & P & _).
  split; [exact H | exact P].
Defined.

(** A text without [cam_] is looked up whole. *)
Lemma no_marker_whole_text_is_identifier_witness :
  Text.contains "cam_" "/getpic" = false /\
  extract_cam_id "/getpic" = "/getpic" /\
  @cam_handler TestCam test_cam_ops reliable test_runtime CamGetpic
    (inbound user42 "/getpic") (test_world 0 false)
  = (Raise (KeyError (Some "/getpic")), test_world 0 false).
Proof.
  split; [reflexivity|].
  destruct (@no_marker_whole_text_is_identifier TestCam test_cam_ops reliable
              test_runtime (fun _ _ _ => ret tt) CamGetpic
              (inbound user42 "/getpic") (test_world 0 false) eq_refl)
    as (E & _ & H).
  split; [exact E | exact (H eq_refl eq_refl)].
Defined.

(** The camera is down when an allow-listed sender asks for a picture. *)
Lemma camera_failure_is_reported_witness :
  exists logs,
    forallb is_log logs = true /\
    @cam_handler TestCam test_cam_ops reliable test_runtime CamGetpic
      (inbound user42 "/getpic_cam_1") (test_world 0 true)
    = (Ret tt,
       set_cam 0 (front_door 0 true)
         (emit (logs ++ [ TakeSnapshot 0 true;
                          ReplyText 42
                            ("Camera is down" ++ NL
                             ++ "Try later or /list other cameras") ])
            (test_world 0 true))).
Proof.
  destruct (@camera_failure_is_reported TestCam test_cam_ops reliable
              test_runtime CamGetpic (inbound user42 "/getpic_cam_1")
              (test_world 0 true)
              {| instance := 0; commands := ["getpic_cam_1"] |}
              "Camera is down" (front_door 0 true)
              eq_refl eq_refl eq_refl)
    as (logs & L & H & _).
  exists logs. split; [exact L | exact H].
Defined.

(** The scenario of the specification: allow-list [42], one camera [cam_1]
    described as [Front door] with the command [getpic_cam_1], the text
    [/getpic_cam_1] from user 42, and a camera whose counter reads 3 after
    the snapshot. *)
Lemma getpic_sends_photo_then_footer_witness :
  exists before between after,
    @cmd_getpic TestCam test_cam_ops reliable test_runtime
      (inbound user42 "/getpic_cam_1") (test_world 2 false)
    = (Ret tt,
       set_cam 0 (front_door 3 false)
         (emit (before
                ++ [ReplyPhoto 42 test_photo
                      (Some "Pic taken on %a %b %-d %H:%M:%S %Y@1700000000 (pic #3)")]
                ++ between
                ++ [ReplyText 42
                      ("Available commands" ++ NL
                       ++ "/getpic_cam_1 or /list available cameras")]
                ++ after) (test_world 2 false)))
    /\ filter is_reply before = [ReplyText 42 "Sending pic from Front door..."]
    /\ filter is_reply between = []
    /\ filter is_reply after = []
    /\ Text.contains "pic #3"
         "Pic taken on %a %b %-d %H:%M:%S %Y@1700000000 (pic #3)" = true.
Proof.
  destruct (@getpic_sends_photo_then_footer TestCam test_cam_ops reliable
              test_runtime (inbound user42 "/getpic_cam_1")
              (test_world 2 false)
              {| instance := 0; commands := ["getpic_cam_1"] |}
              test_photo 1700000000%Z (front_door 3 false)
              eq_refl eq_refl eq_refl (fun _ _ => eq_refl))
    as (before & between & after & H & B & _ & M & F & _ & P & _).
  exists before, between, after.
  split; [exact H|]. split; [exact B|]. split; [exact M|].
  split; [exact F | exact P].
Defined.

(** [/list] on the test bot: one block. *)
Lemma list_cams_one_block_per_camera_witness :
  exists after,
    @cmd_list_cams TestCam test_cam_ops reliable
      (inbound user42 "/list") (test_world 0 false)
    = (Ret tt,
       emit ([ Log INFO "Camera list has been requested";
               ReplyHtml 42
                 ("<b>You have 1 cameras:</b>" ++ NL ++ NL
                  ++ "<b>Camera:</b> cam_1" ++ NL
                  ++ "<b>Description:</b> Front door" ++ NL
                  ++ "<b>Commands:</b> /getpic_cam_1") ] ++ after)
         (test_world 0 false)).
Proof.
  destruct (@list_cams_one_block_per_camera TestCam test_cam_ops reliable
              (inbound user42 "/list") (test_world 0 false) eq_refl)
    as (after & H & _).
  exists after. exact H.
Defined.

(** The footer mode of [cmd_help] on the test bot. *)
Lemma help_modes_witness :
  exists calls,
    trace (snd (@cmd_help TestCam reliable (inbound user42 "/getpic_cam_1")
                  true false (Some "cam_1") (test_world 0 false)))
    = (trace (test_world 0 false) ++ calls)%list
    /\ filter is_reply calls
       = [ReplyText 42 ("Available commands" ++ NL
                        ++ "/getpic_cam_1 or /list available cameras")].
Proof.
  destruct (proj1 (proj2
    (@help_modes TestCam reliable (inbound user42 "/getpic_cam_1")
       true false (Some "cam_1") (test_world 0 false)))
    eq_refl eq_refl "cam_1"
    {| instance := 0; commands := ["getpic_cam_1"] |} eq_refl eq_refl)
    as (calls & T & F & _).
  exists calls. split; [exact T | exact F].
Defined.

(** C7 as stated fails: with both flags unset neither mode fires; the call
    returns after one record on the logger and no reply. *)
Lemma help_with_no_flag_sends_nothing :
  let run :=
    @cmd_help TestCam reliable (inbound user42 "/help") false false None
      (test_world 0 false) in
  run = (Ret tt, emit [Log INFO "Help message has been sent"]
                   (test_world 0 false))
  /\ filter is_reply (trace (snd run)) = [].
Proof. split; reflexivity. Qed.

(** ** Runs of the test bot *)

Example motion_detection_on_run :
  let r := @cmd_motion_detection_on TestCam test_cam_ops reliable
             (inbound user42 "/motion_detection_on_cam_1")
             (test_world 2 false) in
  fst r = Ret tt /\
  trace (snd r)
  = [ Log INFO "Enabling camera's Motion Detection has been requested";
      Log DEBUG "Request from user_id: 42, username: alice, first_name: Alice, last_name: None";
      MotionDetectionSwitch 0 true;
      ReplyText 42 "Motion Detection successfully enabled.";
      Log INFO "Motion Detection successfully enabled.";
      ReplyText 42 ("Available commands" ++ NL
                    ++ "/getpic_cam_1 or /list available cameras");
      Log INFO "Help message has been sent" ].
Proof. split; reflexivity. Qed.

Example getfullpic_run :
  let r := @cmd_getfullpic TestCam test_cam_ops reliable test_runtime
             (inbound user42 "/getfullpic_cam_1") (test_world 2 false) in
  fst r = Ret tt /\
  filter is_reply (trace (snd r))
  = [ ReplyText 42 "Sending full pic from Front door...";
      ReplyDocument 42 test_photo
        (Some "Full_snapshot_%a_%b_%-d_%H.%M.%S_%Y@1700000000.jpg")
        (Some "Full pic taken on %a %b %-d %H:%M:%S %Y@1700000000 (pic #3)");
      ReplyText 42 ("Available commands" ++ NL
                    ++ "/getpic_cam_1 or /list available cameras") ].
Proof. split; reflexivity. Qed.

Example stop_run :
  let r := @cmd_stop TestCam reliable (inbound user42 "/stop")
             (test_world 0 false) in
  fst r = Ret tt /\
  trace (snd r)
  = [ Log INFO "Stopping camerabot bot";
      Log DEBUG "Request from user_id: 42, username: alice, first_name: Alice, last_name: None";
      ReplyText 42 "Stopping camerabot bot";
      ThreadStart ].
Proof. split; reflexivity. Qed.

(** A send the chat library refuses ends the run with its error. *)
Example startup_unreachable :
  let r := @send_startup_message TestCam unreachable (test_world 0 false) in
  fst r = Raise (TelegramError "Timed out") /\
  trace (snd r)
  = [ Log INFO "Sending welcome message";
      SendMessage 42
        "camerabot bot started, see /help for available commands" ].
Proof. split; reflexivity. Qed.

Example watchdog_broadcast :
  let r := @send_cam_photo TestCam reliable test_photo None (Some "Alert")
             EmptyString None false true (test_world 0 false) in
  fst r = Ret tt /\
  trace (snd r) = [SendDocument 42 test_photo (Some "Alert") "snapshot.jpg" 300].
Proof. split; reflexivity. Qed.

(** ** More runs of the test bot *)

(** [/getpic_] in front of the key [cam_1]. *)
Lemma command_text_resolves_to_its_key_witness :
  extract_cam_id ("/getpic_" ++ "cam_" ++ "1") = "cam_" ++ "1"
  /\ @camera_selection TestCam (fun _ _ cam_id => log INFO cam_id)
       (inbound user42 ("/getpic_" ++ "cam_" ++ "1")) (test_world 0 false)
     = (Ret tt, emit [Log INFO "cam_1"] (test_world 0 false)).
Proof.
  exact (@command_text_resolves_to_its_key TestCam
           (fun _ _ cam_id => log INFO cam_id) user42 "/getpic_" "1"
           {| instance := 0; commands := ["getpic_cam_1"] |}
           (test_world 0 false) eq_refl eq_refl eq_refl).
Defined.

(** A handler that raises [UserAuthError] for a sender on the allow-list. *)
Lemma gate_is_transparent_when_allowed_witness :
  @authorization_check TestCam reliable (fun _ => raise UserAuthError)
    (inbound user42 "/stop") (test_world 0 false)
  = (Ret tt,
     emit [ Log ERROR "User authorization error";
            Log ERROR "Request from user_id: 42, username: alice, first_name: Alice, last_name: None";
            ReplyText 42 "Not authorized" ]
       (test_world 0 false)).
Proof.
  exact (proj2
    (@gate_is_transparent_when_allowed TestCam reliable
       (fun _ => raise UserAuthError) (inbound user42 "/stop")
       (test_world 0 false) eq_refl)
    (test_world 0 false) eq_refl).
Defined.

(** The one error of a handler that is not the chat library's. *)
Lemma handler_errors_witness :
  is_TelegramError (KeyError (Some "cam_9"))
  \/ (as_cam_command Getpic <> None
      /\ user_id_in 42 (_user_ids (test_world 0 false)) = true
      /\ registry_get (_cam_instances (test_world 0 false)) "cam_9" = None
      /\ KeyError (Some "cam_9") = KeyError (Some "cam_9")).
Proof.
  exact (@handler_errors TestCam test_cam_ops reliable test_runtime Getpic
           (inbound user42 "/getpic_cam_9") (test_world 0 false)
           (KeyError (Some "cam_9")) eq_refl).
Defined.

(** A snapshot from camera 0 leaves camera 1 alone. *)
Lemma cam_handler_changes_only_its_camera_witness :
  cams (snd (@cam_handler TestCam test_cam_ops reliable test_runtime CamGetpic
               (inbound user42 "/getpic_cam_1") (test_world 2 false))) 1
  = front_door 2 false.
Proof.
  apply (@cam_handler_changes_only_its_camera TestCam test_cam_ops reliable
           test_runtime CamGetpic (inbound user42 "/getpic_cam_1")
           (test_world 2 false) 1).
  intros data [= <-]. discriminate.
Defined.

Lemma other_operations_change_no_camera_witness :
  cams (snd (@run TestCam test_cam_ops reliable test_runtime
               (OpCommand ListCams (inbound user42 "/list"))
               (test_world 2 false))) 0
  = front_door 2 false.
Proof.
  apply (@other_operations_change_no_camera TestCam test_cam_ops reliable
           test_runtime (OpCommand ListCams (inbound user42 "/list"))
           (test_world 2 false) 0).
  intros c update [= <- _]. reflexivity.
Defined.

Lemma getfullpic_sends_document_then_footer_witness :
  exists calls,
    @cmd_getfullpic TestCam test_cam_ops reliable test_runtime
      (inbound user42 "/getfullpic_cam_1") (test_world 2 false)
    = (Ret tt, set_cam 0 (front_door 3 false) (emit calls (test_world 2 false)))
    /\ filter is_reply calls
       = [ ReplyText 42 "Sending full pic from Front door...";
           ReplyDocument 42 test_photo
             (Some "Full_snapshot_%a_%b_%-d_%H.%M.%S_%Y@1700000000.jpg")
             (Some "Full pic taken on %a %b %-d %H:%M:%S %Y@1700000000 (pic #3)");
           ReplyText 42 ("Available commands" ++ NL
                         ++ "/getpic_cam_1 or /list available cameras") ].
Proof.
  destruct (@getfullpic_sends_document_then_footer TestCam test_cam_ops
              reliable test_runtime (inbound user42 "/getfullpic_cam_1")
              (test_world 2 false)
              {| instance := 0; commands := ["getpic_cam_1"] |}
              test_photo 1700000000%Z (front_door 3 false)
              eq_refl eq_refl eq_refl (fun _ _ => eq_refl))
    as (calls & H & R & _).
  exists calls. split; [exact H | exact R].
Defined.

Lemma motion_detection_confirms_then_footer_witness :
  exists calls,
    @cmd_motion_detection_off TestCam test_cam_ops reliable
      (inbound user42 "/motion_detection_off_cam_1") (test_world 0 false)
    = (Ret tt, set_cam 0 (front_door 0 false) (emit calls (test_world 0 false)))
    /\ filter is_reply calls
       = [ ReplyText 42 "Motion Detection successfully disabled.";
           ReplyText 42 ("Available commands" ++ NL
                         ++ "/getpic_cam_1 or /list available cameras") ]
    /\ filter is_camera_call calls = [MotionDetectionSwitch 0 false].
Proof.
  exact (@motion_detection_confirms_then_footer TestCam test_cam_ops reliable
           false (inbound user42 "/motion_detection_off_cam_1")
           (test_world 0 false)
           {| instance := 0; commands := ["getpic_cam_1"] |}
           (front_door 0 false) eq_refl eq_refl eq_refl
           (fun _ _ => eq_refl)).
Defined.

